(** * epub_annotate: the chapter annotation and merge pipeline of annotate.py

    A shallow embedding of [src/annotate.py] and the properties its
    specification states about it.

    Python values are carried by the type [pyval]; a call that may raise
    returns a [pyres]; code that touches the cache shelf, the files or the
    remote backends is a function of the [world] it runs in.  Libraries the
    script only calls (PyQuery and lxml parsing, the OpenAI client, PIL) are
    Variables of the sections that need them. *)

From Stdlib Require Import String Ascii ZArith List Bool Lia Permutation.
From stdpp Require Import base option list gmap strings pretty fin_maps.

Set Warnings "-register-all".
Open Scope string_scope.
Open Scope list_scope.

(** ** Python values, exceptions and results *)

(** The values that JSON decoding, the cache shelf and the backends hand to
    the script.  JSON numbers are kept as integers. *)
Inductive pyval : Type :=
  | PNone
  | PBool (b : bool)
  | PInt (z : Z)
  | PStr (s : string)
  | PBytes (b : string)
  | PList (l : list pyval)
  | PDict (d : list (string * pyval)).

Inductive exn : Type :=
  | KeyError (key : string)
  | IndexError
  | TypeError
  | AttributeError
  | ValueError
  | OSError
  | CancelledError
  | ParseError
  | RemoteCallError.

Inductive pyres (A : Type) : Type :=
  | Ok (a : A)
  | Raise (e : exn).
Arguments Ok {A} a.
Arguments Raise {A} e.

Definition rbind {A B} (r : pyres A) (k : A -> pyres B) : pyres B :=
  match r with
  | Ok a => k a
  | Raise e => Raise e
  end.

Declare Scope py_scope.
Delimit Scope py_scope with py.
Notation "'try' x <- r ; k" := (rbind r (fun x => k))
  (at level 10, x name, r at level 100, k at level 200) : py_scope.
Open Scope py_scope.

(** ** Strings *)

(** The double quote character, for the markup the script writes. *)
Definition dq : string := String (ascii_of_nat 34) EmptyString.

(** [s.startswith(p)] *)
Fixpoint startswith (p s : string) : bool :=
  match p, s with
  | EmptyString, _ => true
  | String _ _, EmptyString => false
  | String a p', String b s' => if Ascii.eqb a b then startswith p' s' else false
  end.

(** [old in s] for two strings: [old] occurs in [s] as a literal substring. *)
Fixpoint str_in (old s : string) : bool :=
  if startswith old s then true
  else match s with
       | EmptyString => false
       | String _ s' => str_in old s'
       end.

Fixpoint str_drop (n : nat) (s : string) : string :=
  match n, s with
  | O, _ => s
  | S _, EmptyString => EmptyString
  | S n', String _ s' => str_drop n' s'
  end.

(** [s.replace(old, new, 1)]: the first occurrence of [old], scanning from
    the left, is replaced; the empty [old] occurs at position 0. *)
Fixpoint replace1 (old new s : string) : string :=
  if startswith old s then new +:+ str_drop (String.length old) s
  else match s with
       | EmptyString => EmptyString
       | String c s' => String c (replace1 old new s')
       end.

(** [s.rstrip('.')]: every trailing period is removed. *)
Fixpoint rstrip_dot (s : string) : string :=
  match s with
  | EmptyString => EmptyString
  | String c s' =>
      match rstrip_dot s' with
      | EmptyString => if Ascii.eqb c "."%char then EmptyString else String c EmptyString
      | r => String c r
      end
  end.

(** [s.strip(chars)] for a single character: leading and trailing copies
    are removed. *)
Fixpoint lstrip_char (ch : ascii) (s : string) : string :=
  match s with
  | EmptyString => EmptyString
  | String c s' => if Ascii.eqb c ch then lstrip_char ch s' else s
  end.

Fixpoint rstrip_char (ch : ascii) (s : string) : string :=
  match s with
  | EmptyString => EmptyString
  | String c s' =>
      match rstrip_char ch s' with
      | EmptyString => if Ascii.eqb c ch then EmptyString else String c EmptyString
      | r => String c r
      end
  end.

Definition strip_char (ch : ascii) (s : string) : string :=
  rstrip_char ch (lstrip_char ch s).

(** [sep.join(parts)] *)
Fixpoint str_join (sep : string) (parts : list string) : string :=
  match parts with
  | [] => EmptyString
  | [p] => p
  | p :: rest => p +:+ sep +:+ str_join sep rest
  end.

Fixpoint chars_of (s : string) : list string :=
  match s with
  | EmptyString => []
  | String c s' => String c EmptyString :: chars_of s'
  end.

(** ** Operations on Python values *)

(** Truth value of an object, as [if x:] tests it. *)
Definition truthy (v : pyval) : bool :=
  match v with
  | PNone => false
  | PBool b => b
  | PInt z => negb (Z.eqb z 0)
  | PStr s => negb (String.eqb s EmptyString)
  | PBytes b => negb (String.eqb b EmptyString)
  | PList l => match l with [] => false | _ => true end
  | PDict d => match d with [] => false | _ => true end
  end.

(** Dictionaries keep insertion order; a key occurs once. *)
Fixpoint dict_get (k : string) (d : list (string * pyval)) : option pyval :=
  match d with
  | [] => None
  | (k', v) :: d' => if String.eqb k k' then Some v else dict_get k d'
  end.

Fixpoint dict_set (k : string) (v : pyval) (d : list (string * pyval)) : list (string * pyval) :=
  match d with
  | [] => [(k, v)]
  | (k', v') :: d' => if String.eqb k k' then (k', v) :: d' else (k', v') :: dict_set k v d'
  end.

Definition dict_has (k : string) (d : list (string * pyval)) : bool :=
  match dict_get k d with Some _ => true | None => false end.

(** [k in x] for a string [k]: key membership in a dict, substring test in a
    string, element test in a list; other objects are not containers. *)
Definition py_contains (k : string) (x : pyval) : pyres bool :=
  match x with
  | PDict d => Ok (dict_has k d)
  | PStr s => Ok (str_in k s)
  | PList l => Ok (existsb (fun v => match v with PStr s => String.eqb s k | _ => false end) l)
  | _ => Raise TypeError
  end.

(** [x[k]] for a string [k]. *)
Definition py_getitem (x : pyval) (k : string) : pyres pyval :=
  match x with
  | PDict d => match dict_get k d with Some v => Ok v | None => Raise (KeyError k) end
  | _ => Raise TypeError
  end.

(** [x[k] = v] for a string [k]. *)
Definition py_setitem (x : pyval) (k : string) (v : pyval) : pyres pyval :=
  match x with
  | PDict d => Ok (PDict (dict_set k v d))
  | _ => Raise TypeError
  end.

(** [x.rstrip('.')] *)
Definition py_rstrip_dot (x : pyval) : pyres string :=
  match x with
  | PStr s => Ok (rstrip_dot s)
  | PBytes _ => Raise TypeError
  | _ => Raise AttributeError
  end.

(** [x in section_xml] with a string on the right: the left operand must be
    a string. *)
Definition py_in_str (x : pyval) (s : string) : pyres bool :=
  match x with
  | PStr t => Ok (str_in t s)
  | _ => Raise TypeError
  end.

(** The items a [for] loop draws from an object. *)
Definition py_iter (x : pyval) : pyres (list pyval) :=
  match x with
  | PList l => Ok l
  | PDict d => Ok (map (fun kv => PStr (fst kv)) d)
  | PStr s => Ok (map PStr (chars_of s))
  | PBytes b => Ok (map (fun c => PInt (Z.of_nat (nat_of_ascii c))) (list_ascii_of_string b))
  | _ => Raise TypeError
  end.

(** ** Merge engine, text stage (process_chapter, the raw text part) *)

Section MergeText.

(** Python's [str(x)] on a value that is not itself a string, as an f-string
    applies it. *)
Variable py_str : pyval -> string.

(** [f'{x}'] *)
Definition fmt (x : pyval) : string :=
  match x with
  | PStr s => s
  | _ => py_str x
  end.

(** The reference marker spliced in behind a found anchor. *)
Definition noteref (reader id : string) (footnote_number : nat) : string :=
  "<a class=" +:+ dq +:+ "noteref " +:+ reader +:+ dq +:+ " epub:type=" +:+ dq +:+ "noteref" +:+ dq
  +:+ " href=" +:+ dq +:+ "#" +:+ id +:+ dq +:+ "><sup>" +:+ pretty footnote_number +:+ "</sup></a>".

(** The footnote block queued for the end of the section. *)
Definition footnote_aside (whitespace id reader note : string) : string :=
  whitespace +:+ "<aside class=" +:+ dq +:+ "footnote" +:+ dq +:+ " epub:type=" +:+ dq +:+ "footnote" +:+ dq
  +:+ " id=" +:+ dq +:+ id +:+ dq +:+ "><strong>" +:+ reader +:+ ":</strong> " +:+ note +:+ "</aside>".

Definition addition_box (whitespace new_sentence : string) : string :=
  whitespace +:+ "<div class=" +:+ dq +:+ "ai-addition annotation-box" +:+ dq
  +:+ ">The Publisher regretted the necessity to add: " +:+ new_sentence +:+ "</div>".

(** The variables the annotation loop updates.  [noterefs] is not a variable
    of the script: it lists, oldest first, the numbers the loop has written
    into reference markers, so that properties can speak of them. *)
Record merge_state : Type := MergeState {
  section_xml : string;
  footnote_number : nat;
  section_append : list string;
  noterefs : list nat
}.

(** The condition of line 273, [not 'text' in annotation and 'annotation' in
    annotation]: [not] binds tighter than [and], and [and] evaluates its
    right operand only when the left one is true. *)
Definition skip_annotation (annotation : pyval) : pyres bool :=
  try has_text <- py_contains "text" annotation;
  if negb has_text then py_contains "annotation" annotation else Ok false.

(** One turn of the loop of lines 272 to 281, for the item at index [i]. *)
Definition annotation_step (stem whitespace : string) (st : merge_state)
    (i : nat) (annotation : pyval) : pyres merge_state :=
  try skip <- skip_annotation annotation;
  if skip then Ok st
  else
    try raw <- py_getitem annotation "text";
    try text <- py_rstrip_dot raw;
    if str_in text (section_xml st) then
      try annotation <- py_setitem annotation "reader" (PStr "Publisher");
      let id := stem +:+ "-note" +:+ pretty i in
      try reader <- py_getitem annotation "reader";
      let xml := replace1 text (text +:+ noteref (fmt reader) id (footnote_number st)) (section_xml st) in
      let number := footnote_number st + 1 in
      try reader' <- py_getitem annotation "reader";
      try note <- py_getitem annotation "annotation";
      Ok {| section_xml := xml;
            footnote_number := number;
            section_append :=
              section_append st ++ [footnote_aside whitespace id (fmt reader') (fmt note)];
            noterefs := noterefs st ++ [footnote_number st] |}
    else Ok st.

(** [for i, annotation in enumerate(annotations)], from index [i] on. *)
Fixpoint annotation_loop (stem whitespace : string) (i : nat) (items : list pyval)
    (st : merge_state) : pyres merge_state :=
  match items with
  | [] => Ok st
  | annotation :: rest =>
      try st' <- annotation_step stem whitespace st i annotation;
      annotation_loop stem whitespace (S i) rest st'
  end.

(** Lines 270 to 281: the footnote step on the markup [xml]. *)
Definition footnotes (stem whitespace xml : string) (annotations : pyval) : pyres merge_state :=
  let st := {| section_xml := xml; footnote_number := 1; section_append := []; noterefs := [] |} in
  if truthy annotations then
    try items <- py_iter annotations;
    annotation_loop stem whitespace 0 items st
  else Ok st.

(** Lines 284 to 288: the candidates are tried in order, the loop is left at
    the first one whose anchor is in the markup. *)
Fixpoint addition_loop (whitespace : string) (items : list pyval)
    (xml : string) (pending : list string) : pyres (string * list string) :=
  match items with
  | [] => Ok (xml, pending)
  | addition :: rest =>
      try existing <- py_getitem addition "existing_sentence";
      try found <- py_in_str existing xml;
      if found then
        try existing' <- py_getitem addition "existing_sentence";
        try new_sentence <- py_getitem addition "new_sentence";
        let xml' := replace1 (fmt existing) (fmt existing' +:+ " " +:+ fmt new_sentence) xml in
        try new_sentence' <- py_getitem addition "new_sentence";
        Ok (xml', pending ++ [addition_box whitespace (fmt new_sentence')])
      else addition_loop whitespace rest xml pending
  end.

Definition sentence_addition (whitespace : string) (additions : pyval)
    (xml : string) (pending : list string) : pyres (string * list string) :=
  try items <- py_iter additions;
  addition_loop whitespace items xml pending.

(** Lines 265 to 288: both text steps, in the order of the script. *)
Definition merge_text (stem whitespace xml : string) (annotations additions : pyval)
    : pyres (string * list string) :=
  try st <- footnotes stem whitespace xml annotations;
  sentence_addition whitespace additions (section_xml st) (section_append st).

End MergeText.

(** ** The world the script runs in *)

(** The world the script runs in.  [cache_db] is the content of the shelf,
    which the script keeps on disk in the file cache of its own directory
    (lines 26 to 33): a write to [cache_db] is a write to that file.
    [files] holds the other files, those of the unpacked book and of the
    work directory, by path.  The two counters tell how many requests each
    remote backend has received so far. *)
Record world : Type := World {
  cache_db : gmap string pyval;
  files : gmap string string;
  chat_calls : nat;
  image_calls : nat
}.

(** A piece of the script: it runs in a world, leaves a world, and returns
    or raises.  What it did to the world before raising stays done. *)
Definition M (A : Type) : Type := world -> pyres A * world.

Definition mret {A} (a : A) : M A := fun w => (Ok a, w).

Definition mraise {A} (e : exn) : M A := fun w => (Raise e, w).

Definition mbind {A B} (c : M A) (k : A -> M B) : M B :=
  fun w =>
    match c w with
    | (Ok a, w') => k a w'
    | (Raise e, w') => (Raise e, w')
    end.

Definition lift {A} (r : pyres A) : M A := fun w => (r, w).

Notation "'do' x <- c ; k" := (mbind c (fun x => k))
  (at level 10, x name, c at level 100, k at level 200) : py_scope.

(** ** Caching (lines 30 to 58) *)

(** [cache_db[key] = value]: the entry is written to the shelf, and so to
    the file behind it. *)
Definition store_cache (key : string) (value : pyval) : M unit :=
  fun w =>
    (Ok tt, {| cache_db := <[key := value]> (cache_db w); files := files w;
               chat_calls := chat_calls w; image_calls := image_calls w |}).

(** [cache_db.get(key)]: [None] when the shelf has no such key. *)
Definition get_cache (key : string) : M pyval :=
  fun w => (Ok (default PNone (cache_db w !! key)), w).

(** [if cache_key:] on the keyword argument popped with default [None]. *)
Definition key_given (cache_key : option string) : option string :=
  match cache_key with
  | Some k => if String.eqb k EmptyString then None else Some k
  | None => None
  end.

(** The wrapper that [@cached] puts around [func]; [cache_key] is the
    keyword argument it pops, [args] is everything else. *)
Definition cached {A} (func : A -> M pyval) (cache_key : option string) (args : A) : M pyval :=
  match key_given cache_key with
  | Some key =>
      do hit <- get_cache key;
      if truthy hit then mret hit
      else
        do out <- func args;
        do _ <- store_cache key out;
        mret out
  | None => func args
  end.

(** ** Remote call adapter (lines 92 to 185) *)

(** A pydantic model: its name and its fields, each a string ([None]) or a
    list of another model. *)
Inductive model : Type :=
  | BaseModel (name : string) (fields : list (string * option model)).

Record tool : Type := Tool {
  tool_name : string;
  tool_description : string;
  tool_parameters : model
}.

Definition make_openai_tool (name description : string) (m : model) : tool :=
  {| tool_name := name; tool_description := description; tool_parameters := m |}.

Definition make_openai_tool_list (name description : string) (m : model) : tool :=
  let ItemList := BaseModel "ItemList" [("items", Some m)] in
  make_openai_tool name description ItemList.

Definition Dialogue : model := BaseModel "Dialogue" [("speaker", None); ("line", None)].
Definition Annotation : model := BaseModel "Annotation" [("text", None); ("annotation", None)].
Definition Addition : model :=
  BaseModel "Addition" [("existing_sentence", None); ("new_sentence", None)].
Definition Illustration : model :=
  BaseModel "Illustration" [("existing_sentence", None); ("image_description", None)].
Definition ReaderAnnotation : model :=
  BaseModel "ReaderAnnotation" [("text", None); ("annotation", None); ("reader", None)].

Definition dialogue_tool : tool := make_openai_tool_list "dialog" "Process a dialog" Dialogue.
Definition annotate_tool : tool :=
  make_openai_tool_list "annotate" "Handle list of annotations" Annotation.
Definition reader_annotate_tool : tool :=
  make_openai_tool_list "annotate" "Handle list of annotations" ReaderAnnotation.
Definition addition_tool : tool := make_openai_tool "addition" "Handle new sentence" Addition.
Definition illustration_tool : tool :=
  make_openai_tool "illustration" "Generate illustration" Illustration.

(** The arguments of [get_completion_text] once [cache_key] is popped:
    [temperature] holds the literal as written, [n] is the sample count. *)
Record request : Type := Request {
  prompt : string;
  req_tool : option tool;
  temperature : option string;
  n : option nat
}.

(** One choice of a chat completion: the message content, and the argument
    strings of its tool calls ([None] when the message has none). *)
Record choice : Type := Choice {
  content : pyval;
  tool_calls : option (list string)
}.

(** [if out.keys() == {'items'}: out = out['items']] *)
Definition unwrap_items (out : pyval) : pyres pyval :=
  match out with
  | PDict d =>
      match d with
      | [(k, _)] => if String.eqb k "items" then py_getitem out "items" else Ok out
      | _ => Ok out
      end
  | _ => Raise AttributeError
  end.

Fixpoint mapM_res {A B} (f : A -> pyres B) (l : list A) : pyres (list B) :=
  match l with
  | [] => Ok []
  | a :: rest =>
      try b <- f a;
      try bs <- mapM_res f rest;
      Ok (b :: bs)
  end.

Section Adapter.

(** [partial_json_parser.loads] *)
Variable partial_json_loads : string -> pyres pyval.

(** The chat completion service: its reply to the request it receives as
    its [k]-th one.  Nothing makes two replies to one request equal. *)
Variable chat_backend : nat -> request -> pyres (list choice).

(** The image service, likewise, returning the decoded bytes. *)
Variable image_backend : nat -> string -> pyres string.

(** PIL resizing followed by pngquant, on the bytes of an image. *)
Variable resize_and_quantize : string -> pyres string.

(** Lines 154 to 158, for one choice. *)
Definition tool_output (c : choice) : pyres pyval :=
  match tool_calls c with
  | None => Raise TypeError
  | Some [] => Raise IndexError
  | Some (arguments :: _) =>
      try out <- partial_json_loads arguments;
      unwrap_items out
  end.

(** Lines 152 to 162: what [get_completion_text] makes of a response. *)
Definition completion_output (kw : request) (choices : list choice) : pyres pyval :=
  try out_list <-
    match req_tool kw with
    | Some _ => mapM_res tool_output choices
    | None => Ok (map content choices)
    end;
  match n kw with
  | Some _ => Ok (PList out_list)
  | None => match out_list with
            | out :: _ => Ok out
            | [] => Raise IndexError
            end
  end.

(** [get_completion_text], undecorated: one request to the service. *)
Definition get_completion_text (kw : request) : M pyval :=
  fun w =>
    let w' := {| cache_db := cache_db w; files := files w;
                 chat_calls := S (chat_calls w); image_calls := image_calls w |} in
    (rbind (chat_backend (chat_calls w) kw) (completion_output kw), w').

(** [get_image], undecorated. *)
Definition get_image (image_prompt : string) : M pyval :=
  fun w =>
    let w' := {| cache_db := cache_db w; files := files w;
                 chat_calls := chat_calls w; image_calls := S (image_calls w) |} in
    (rbind (image_backend (image_calls w) image_prompt) (fun b => Ok (PBytes b)), w').

(** [compress_image], undecorated. *)
Definition compress_image (data : pyval) : M pyval :=
  match data with
  | PBytes b => lift (rbind (resize_and_quantize b) (fun b' => Ok (PBytes b')))
  | _ => mraise TypeError
  end.

End Adapter.

(** ** Concurrent dispatcher (lines 189 to 191) *)

(** [ThreadPoolExecutor] is modelled by what it leaves open.  All jobs are
    submitted at once and complete in some order; a job acts on the shared
    state in one step, at its completion.  [latency] orders the completions
    (ties go to the job submitted first), and [started] is the number of
    jobs that workers had picked up when a failure reached the caller.  The
    width of the pool ([max_workers]) only restricts the orders that can
    occur: the model allows them all. *)
Record schedule : Type := Schedule {
  latency : nat -> nat;
  started : nat
}.

Fixpoint insert_by (lat : nat -> nat) (i : nat) (l : list nat) : list nat :=
  match l with
  | [] => [i]
  | j :: l' => if Nat.leb (lat i) (lat j) then i :: l else j :: insert_by lat i l'
  end.

(** The indices of [count] jobs, in the order in which they complete. *)
Definition completion_order (lat : nat -> nat) (count : nat) : list nat :=
  foldr (insert_by lat) [] (seq 0 count).

(** [executor.map] reads the futures in submission order; this holds once the
    future it is reading has raised. *)
Fixpoint failure_surfaced {R} (futures : list (option (pyres R))) : bool :=
  match futures with
  | Some (Ok _) :: rest => failure_surfaced rest
  | Some (Raise _) :: _ => true
  | _ => false
  end.

(** The workers: jobs complete in [order], each recorded in its future.
    Once a failure has surfaced, [executor.map] cancels the futures that
    are still pending, those of the jobs no worker had picked up. *)
Fixpoint complete {S J R} (first_pending : nat) (func : J -> S -> pyres R * S) (jobs : list J)
    (order : list nat) (futures : list (option (pyres R))) (s : S)
    : list (option (pyres R)) * S :=
  match order with
  | [] => (futures, s)
  | i :: rest =>
      if failure_surfaced futures && Nat.leb first_pending i then
        complete first_pending func jobs rest futures s
      else
        match jobs !! i with
        | Some j =>
            let '(r, s') := func j s in
            complete first_pending func jobs rest (<[i := Some r]> futures) s'
        | None => complete first_pending func jobs rest futures s
        end
  end.

(** [list(executor.map(...))]: results in submission order; the first
    future that raised re-raises its exception.  A cancelled future would
    raise CancelledError; the reading stops before it reaches one. *)
Fixpoint result_iterator {R} (futures : list (option (pyres R))) : pyres (list R) :=
  match futures with
  | [] => Ok []
  | Some (Ok r) :: rest =>
      try rs <- result_iterator rest;
      Ok (r :: rs)
  | Some (Raise e) :: _ => Raise e
  | None :: _ => Raise CancelledError
  end.

Definition run_futures {S J R} (sched : schedule) (func : J -> S -> pyres R * S)
    (jobs : list J) (s : S) : list (option (pyres R)) * S :=
  complete (started sched) func jobs
    (completion_order (latency sched) (length jobs))
    (replicate (length jobs) None) s.

(** [run_threaded(func, jobs)] under a schedule of the pool. *)
Definition run_threaded {S J R} (sched : schedule) (func : J -> S -> pyres R * S)
    (jobs : list J) (s : S) : pyres (list R) * S :=
  let '(futures, s') := run_futures sched func jobs s in
  (result_iterator futures, s').

(** The list comprehension that calls [func] on each job in turn: the jobs
    one after the other, stopping at the first that raises. *)
Fixpoint sequential_map {J R} (out : J -> pyres R) (jobs : list J) : pyres (list R) :=
  match jobs with
  | [] => Ok []
  | j :: rest =>
      try r <- out j;
      try rs <- sequential_map out rest;
      Ok (r :: rs)
  end.

(** ** The document tree *)

(** An lxml element: tag, attributes, the text before its first child, its
    children, and the text that follows it up to its next sibling. *)
Inductive element : Type :=
  | Element (tag : string) (attrib : list (string * string)) (text : string)
      (children : list element) (tail : string).

(** The section of a chapter as the script handles it: its leading text
    ([None] when lxml has none) and its children.  Its own tag is section,
    so a selection of p or header elements never holds the section itself. *)
Record section_dom : Type := SectionDom {
  sec_text : option string;
  sec_children : list element
}.

Definition etag (e : element) : string :=
  match e with Element tag _ _ _ _ => tag end.

Definition add_tail (e : element) (more : string) : element :=
  match e with Element tag attrib text children tail => Element tag attrib text children (tail +:+ more) end.

(** Positions in a forest: the index of a child, then of a child of that
    child, and so on. *)
Fixpoint paths_from {A} (sel : A -> list (list nat)) (i : nat) (l : list A) : list (list nat) :=
  match l with
  | [] => []
  | a :: rest => map (cons i) (sel a) ++ paths_from sel (S i) rest
  end.

(** The elements of tag [name] at or below [e], in document order; the empty
    path is [e] itself. *)
Fixpoint select_in (name : string) (e : element) : list (list nat) :=
  match e with
  | Element tag _ _ children _ =>
      (if String.eqb tag name then [[]] else []) ++ paths_from (select_in name) 0 children
  end.

(** [section(name)]: the elements of tag [name] below the section. *)
Definition select (name : string) (section : section_dom) : list (list nat) :=
  paths_from (select_in name) 0 (sec_children section).

(** The element at a position. *)
Fixpoint element_at (path : list nat) (forest : list element) : option element :=
  match path with
  | [] => None
  | [i] => forest !! i
  | i :: rest =>
      match forest !! i with
      | Some (Element _ _ _ children _) => element_at rest children
      | None => None
      end
  end.

(** PyQuery's [after] on the element at [path]: [root_text] is added to its
    tail, and the elements [root] become its next siblings. *)
Fixpoint after_path (path : list nat) (root_text : string) (root : list element)
    (forest : list element) : list element :=
  match path with
  | [] => forest
  | [i] =>
      match forest !! i with
      | Some e => take i forest ++ add_tail e root_text :: root ++ drop (S i) forest
      | None => forest
      end
  | i :: rest =>
      match forest !! i with
      | Some (Element tag attrib text children tail) =>
          <[i := Element tag attrib text (after_path rest root_text root children) tail]> forest
      | None => forest
      end
  end.

(** PyQuery's [after] on every element of tag [name] at once. *)
Fixpoint after_each (name root_text : string) (root : list element) (e : element) : element :=
  match e with
  | Element tag attrib text children tail =>
      Element tag attrib text
        (flat_map (fun c =>
           let c' := after_each name root_text root c in
           if String.eqb (etag c) name then add_tail c' root_text :: root else [c'])
         children)
        tail
  end.

Definition after_each_forest (name root_text : string) (root forest : list element) : list element :=
  flat_map (fun c =>
    let c' := after_each name root_text root c in
    if String.eqb (etag c) name then add_tail c' root_text :: root else [c']) forest.

Fixpoint add_tail_last (forest : list element) (more : string) : list element :=
  match forest with
  | [] => []
  | [e] => [add_tail e more]
  | e :: rest => e :: add_tail_last rest more
  end.

(** The whitespace that [str.strip()] removes, among the first 256 code
    points. *)
Definition is_space (c : ascii) : bool :=
  let k := nat_of_ascii c in
  (Nat.leb 9 k && Nat.leb k 13) || (Nat.leb 28 k && Nat.leb k 32)
  || Nat.eqb k 133 || Nat.eqb k 160.

Fixpoint is_blank (s : string) : bool :=
  match s with
  | EmptyString => true
  | String c s' => is_space c && is_blank s'
  end.

(** The rest of [s] behind the first occurrence of [pat]. *)
Fixpoint after_first (pat s : string) : option string :=
  if startswith pat s then Some (str_drop (String.length pat) s)
  else match s with
       | EmptyString => None
       | String _ s' => after_first pat s'
       end.

(** The part of [s] before the last occurrence of [pat]. *)
Fixpoint before_last (pat s : string) : option string :=
  match s with
  | EmptyString => if startswith pat EmptyString then Some EmptyString else None
  | String c s' =>
      match before_last pat s' with
      | Some r => Some (String c r)
      | None => if startswith pat s then Some EmptyString else None
      end
  end.

(** Line 204: group 1 of the first match of the pattern that has a lazy run
    up to the first closing bracket of the first section tag, then a greedy
    group up to the last closing section tag.  No match gives [None], whose
    [group] raises. *)
Definition section_source (chapter_xml : string) : pyres string :=
  match after_first "<section" chapter_xml with
  | Some rest =>
      match after_first ">" rest with
      | Some inner =>
          match before_last "</section>" inner with
          | Some group1 => Ok group1
          | None => Raise AttributeError
          end
      | None => Raise AttributeError
      end
  | None => Raise AttributeError
  end.

(** Line 205 *)
Definition leading_whitespace (section : section_dom) : pyres string :=
  match sec_text section with
  | Some t => Ok (if is_blank t then t else EmptyString)
  | None => Raise AttributeError
  end.

Definition nl : string := String (ascii_of_nat 10) EmptyString.
Definition tab : string := String (ascii_of_nat 9) EmptyString.

(** [summary.strip(QUOTE)], QUOTE being the double quote. *)
Definition py_strip_quotes (x : pyval) : pyres string :=
  match x with
  | PStr s => Ok (strip_char (ascii_of_nat 34) s)
  | PBytes _ => Raise TypeError
  | _ => Raise AttributeError
  end.

(** [type(c) is dict and 'speaker' in c and 'line' in c] *)
Definition well_formed_line (c : pyval) : bool :=
  match c with
  | PDict d => dict_has "speaker" d && dict_has "line" d
  | _ => false
  end.

(** A chapter file of the unpacked book, [epub_dir/text/stem.xhtml]. *)
Record chapter_path : Type := ChapterPath {
  epub_dir : string;
  stem : string
}.

Definition chapter_file (c : chapter_path) : string :=
  epub_dir c +:+ "/text/" +:+ stem c +:+ ".xhtml".

Definition illustration_name (c : chapter_path) : string :=
  "illustration_" +:+ stem c +:+ ".png".

(** [chapter_path.parent.parent / 'images/illustration_STEM.png'] *)
Definition illustration_file (c : chapter_path) : string :=
  epub_dir c +:+ "/images/" +:+ illustration_name c.

Definition read_file (path : string) : M string :=
  fun w =>
    match files w !! path with
    | Some data => (Ok data, w)
    | None => (Raise OSError, w)
    end.

Definition write_file (path data : string) : M unit :=
  fun w =>
    (Ok tt, {| cache_db := cache_db w; files := <[path := data]> (files w);
               chat_calls := chat_calls w; image_calls := image_calls w |}).

Definition write_bytes (path : string) (data : pyval) : M unit :=
  match data with
  | PBytes b => write_file path b
  | _ => mraise TypeError
  end.

(** The keyword arguments of one job of line 263. *)
Record completion_job : Type := CompletionJob {
  job_request : request;
  job_cache_key : option string
}.

Record chapter_job : Type := ChapterJob {
  job_chapter_path : chapter_path;
  job_title : string;
  job_author : string
}.

(** ** Chapter pipeline (process_chapter, lines 195 to 317) *)

Section Chapter.

Variable py_str : pyval -> string.
Variable partial_json_loads : string -> pyres pyval.
Variable chat_backend : nat -> request -> pyres (list choice).
Variable image_backend : nat -> string -> pyres string.
Variable resize_and_quantize : string -> pyres string.

(** [parse_xml] followed by the selection of the chapter's section:
    [Ok None] when the document has none. *)
Variable find_section : string -> pyres (option section_dom).

(** PyQuery's [text()] of the section. *)
Variable section_text : section_dom -> string.

(** PyQuery's parser on a markup fragment wrapped in a root element: the
    text and the children of that root. *)
Variable fromstring : string -> pyres (option string * list element).

(** [serialize_xml] of the document parsed from the given source, the
    section being as given. *)
Variable serialize_chapter : string -> section_dom -> string.

(** The instruction texts of lines 208 to 253. *)
Variable precis_prompt commentary_prompt annotation_prompt addition_prompt
  illustration_prompt : string.

(** PyQuery's [html(value)]: the children are replaced by the parsed ones,
    the text by the text of the parsed root. *)
Definition pq_html (value : string) (section : section_dom) : pyres section_dom :=
  try parsed <- fromstring value;
  Ok {| sec_text := fst parsed; sec_children := snd parsed |}.

(** PyQuery's [append(value)]: the fragment's leading text goes to the tail
    of the last child (to the text when there is no child), its elements
    behind the children. *)
Definition pq_append (value : string) (section : section_dom) : pyres section_dom :=
  try parsed <- fromstring value;
  let root_text := default EmptyString (fst parsed) in
  Ok match sec_children section with
     | [] => {| sec_text := Some (default EmptyString (sec_text section) +:+ root_text);
                sec_children := snd parsed |}
     | cs => {| sec_text := sec_text section;
                sec_children := add_tail_last cs root_text ++ snd parsed |}
     end.

(** Lines 292 and 293. *)
Fixpoint append_all (pending : list string) (section : section_dom) : pyres section_dom :=
  match pending with
  | [] => Ok section
  | s :: rest =>
      try section' <- pq_append s section;
      append_all rest section'
  end.

(** PyQuery's [after(value)] on the element at [path]. *)
Definition pq_after (path : list nat) (value : string) (section : section_dom) : pyres section_dom :=
  try parsed <- fromstring value;
  Ok {| sec_text := sec_text section;
        sec_children :=
          after_path path (default EmptyString (fst parsed)) (snd parsed) (sec_children section) |}.

(** PyQuery's [after(value)] on every element of tag [name]. *)
Definition pq_after_each (name value : string) (section : section_dom) : pyres section_dom :=
  try parsed <- fromstring value;
  Ok {| sec_text := sec_text section;
        sec_children :=
          after_each_forest name (default EmptyString (fst parsed)) (snd parsed)
            (sec_children section) |}.

Definition illustration_box (whitespace image_name caption : string) : string :=
  whitespace +:+ "<div class=" +:+ dq +:+ "ai-illustration annotation-box" +:+ dq +:+ ">"
  +:+ whitespace +:+ "<img src=" +:+ dq +:+ "../images/" +:+ image_name +:+ dq +:+ "/>"
  +:+ whitespace +:+ "<p><em>" +:+ caption +:+ "</em></p>" +:+ whitespace +:+ "</div>".

(** Lines 304 and 305: the block goes behind the paragraph at index
    [len(section('p')) // 2] of the paragraphs of the section. *)
Definition place_illustration (whitespace image_name : string) (illustration : pyval)
    (section : section_dom) : pyres section_dom :=
  let paragraphs := select "p" section in
  match paragraphs !! (length paragraphs / 2) with
  | Some middle_paragraph =>
      try sentence <- py_getitem illustration "existing_sentence";
      pq_after middle_paragraph (illustration_box whitespace image_name (fmt py_str sentence)) section
  | None => Raise IndexError
  end.

Definition summary_box (whitespace summary : string) : string :=
  whitespace +:+ "<div class=" +:+ dq +:+ "ai-summary annotation-box" +:+ dq +:+ ">"
  +:+ summary +:+ "</div>".

(** Lines 308 and 309 *)
Definition place_summary (whitespace : string) (summary : pyval) (section : section_dom)
    : pyres section_dom :=
  try summary' <- py_strip_quotes summary;
  pq_after_each "header" (summary_box whitespace summary') section.

Definition commentary_line (c : pyval) : pyres string :=
  try speaker <- py_getitem c "speaker";
  try speaker' <- py_getitem c "speaker";
  try line <- py_getitem c "line";
  Ok ("<p><strong class=" +:+ dq +:+ fmt py_str speaker +:+ dq +:+ ">" +:+ fmt py_str speaker'
      +:+ ":</strong> " +:+ fmt py_str line +:+ "</p>").

(** Lines 312 to 314 *)
Definition place_commentary (whitespace : string) (commentary : pyval) (section : section_dom)
    : pyres section_dom :=
  try items <- py_iter commentary;
  let kept := List.filter well_formed_line items in
  try lines <- mapM_res commentary_line kept;
  let joined := str_join (whitespace +:+ tab) lines in
  pq_append (whitespace +:+ "<div class=" +:+ dq +:+ "ai-commentary annotation-box" +:+ dq +:+ ">"
             +:+ whitespace +:+ tab +:+ joined +:+ whitespace +:+ "</div>") section.

Definition style_suffix : string :=
  ". Simple black and white engraving scanned from an old book with simple, clear lines. Crosshatching into white around the edges.".

Definition manifest_item (image_name : string) : string :=
  nl +:+ tab +:+ tab +:+ "<item href=" +:+ dq +:+ "images/" +:+ image_name +:+ dq
  +:+ " id=" +:+ dq +:+ image_name +:+ dq +:+ " media-type=" +:+ dq +:+ "image/png" +:+ dq +:+ "/>".

(** The five jobs of lines 256 to 262. *)
Definition prompts (c : chapter_path) (title author text : string) : list completion_job :=
  let prompt_prefix :=
    "The following is a chapter from " +:+ title +:+ " by " +:+ author +:+ ":" +:+ nl +:+ nl
    +:+ text +:+ nl +:+ nl +:+ "INSTRUCTIONS: " in
  [ {| job_request := {| prompt := prompt_prefix +:+ precis_prompt; req_tool := None;
                         temperature := None; n := None |};
       job_cache_key := Some ("precis_" +:+ stem c) |};
    {| job_request := {| prompt := prompt_prefix +:+ commentary_prompt;
                         req_tool := Some dialogue_tool; temperature := Some "1.1"; n := None |};
       job_cache_key := Some ("commentary11_" +:+ stem c) |};
    {| job_request := {| prompt := prompt_prefix +:+ annotation_prompt;
                         req_tool := Some annotate_tool; temperature := Some "1.2"; n := None |};
       job_cache_key := Some ("annotation19_" +:+ stem c) |};
    {| job_request := {| prompt := prompt_prefix +:+ addition_prompt;
                         req_tool := Some addition_tool; temperature := Some "1.4"; n := Some 5 |};
       job_cache_key := Some ("addition9_" +:+ stem c) |};
    {| job_request := {| prompt := prompt_prefix +:+ illustration_prompt;
                         req_tool := Some illustration_tool; temperature := None; n := None |};
       job_cache_key := Some ("illustration5_" +:+ stem c) |} ].

(** [get_completion_text] as decorated, called with the keywords of a job. *)
Definition cached_completion (j : completion_job) : M pyval :=
  cached (get_completion_text partial_json_loads chat_backend) (job_cache_key j) (job_request j).

(** Lines 265 to 316: the merge, from the five results to the written file. *)
Definition merge (c : chapter_path) (chapter_xml section_xml whitespace : string)
    (section : section_dom) (summary commentary annotations additions illustration : pyval)
    : M pyval :=
  do merged <- lift (merge_text py_str (stem c) whitespace section_xml annotations additions);
  do section <- lift (pq_html (fst merged) section);
  do section <- lift (append_all (snd merged) section);
  do description <- lift (py_getitem illustration "image_description");
  let illustration_image_prompt := fmt py_str description +:+ style_suffix in
  do illustration_data <-
    cached (get_image image_backend) (Some illustration_image_prompt) illustration_image_prompt;
  do compressed_data <-
    cached (compress_image resize_and_quantize)
      (Some (illustration_image_prompt +:+ "compressed4")) illustration_data;
  do _ <- write_bytes (illustration_file c) compressed_data;
  let manifest := manifest_item (illustration_name c) in
  do section <- lift (place_illustration whitespace (illustration_name c) illustration section);
  do section <- lift (place_summary whitespace summary section);
  do section <- lift (place_commentary whitespace commentary section);
  do _ <- write_file (chapter_file c)
            ("<?xml version=" +:+ dq +:+ "1.0" +:+ dq +:+ " encoding=" +:+ dq +:+ "utf-8" +:+ dq
             +:+ "?>" +:+ nl +:+ serialize_chapter chapter_xml section);
  mret (PDict [("manifest", PStr manifest)]).

(** [process_chapter]; [sched] is the schedule of the pool of line 263. *)
Definition process_chapter (sched : schedule) (job : chapter_job) : M pyval :=
  let c := job_chapter_path job in
  do chapter_xml <- read_file (chapter_file c);
  do found <- lift (find_section chapter_xml);
  match found with
  | None => mret PNone
  | Some section =>
      let text := section_text section in
      do section_xml <- lift (section_source chapter_xml);
      do whitespace <- lift (leading_whitespace section);
      do results <- run_threaded sched cached_completion
                      (prompts c (job_title job) (job_author job) text);
      match results with
      | [summary; commentary; annotations; additions; illustration] =>
          merge c chapter_xml section_xml whitespace section
            summary commentary annotations additions illustration
      | _ => mraise ValueError
      end
  end.

(** Lines 329 to 332 of [process_epub]: one job per chapter. *)
Definition chapter_jobs (title author : string) (chapter_paths : list chapter_path)
    : list chapter_job :=
  map (fun c => {| job_chapter_path := c; job_title := title; job_author := author |})
      chapter_paths.

(** Line 333 of [process_epub]: all chapters are handed to one pool.
    [pool] gives, for a chapter, the schedule of its own pool. *)
Definition process_epub_chapters (sched : schedule) (pool : chapter_path -> schedule)
    (title author : string) (chapter_paths : list chapter_path) : M (list pyval) :=
  run_threaded sched (fun j => process_chapter (pool (job_chapter_path j)) j)
    (chapter_jobs title author chapter_paths).

(** The futures of that pool when all workers are done. *)
Definition chapter_futures (sched : schedule) (pool : chapter_path -> schedule)
    (title author : string) (chapter_paths : list chapter_path) (w : world)
    : list (option (pyres pyval)) :=
  fst (run_futures sched (fun j => process_chapter (pool (job_chapter_path j)) j)
         (chapter_jobs title author chapter_paths) w).

End Chapter.

(** ** Registering the chapters (process_epub, lines 390 to 395) *)

(** [root[-1].tail = text] *)
Fixpoint set_tail_last (forest : list element) (text : string) : list element :=
  match forest with
  | [] => []
  | [Element tag attrib x children _] => [Element tag attrib x children text]
  | e :: rest => e :: set_tail_last rest text
  end.

(** The manifest and the spine of a package document, the two elements the
    script selects in it. *)
Record opf : Type := Opf {
  opf_manifest : section_dom;
  opf_spine : section_dom
}.

Section Register.

Variable fromstring : string -> pyres (option string * list element).

(** [read_xml] of the package document, with its manifest and spine. *)
Variable parse_opf : string -> pyres opf.

(** [serialize_xml] of the package document parsed from the given source,
    manifest and spine being as given. *)
Variable serialize_opf : string -> opf -> string.

(** PyQuery's [prepend(value)]: the elements of the fragment go before the
    children, the last of them taking the old leading text as its tail, and
    the leading text of the fragment becomes the leading text. *)
Definition pq_prepend (value : string) (section : section_dom) : pyres section_dom :=
  try parsed <- fromstring value;
  let root_text := default EmptyString (fst parsed) in
  let text := default EmptyString (sec_text section) in
  Ok match snd parsed with
     | [] => {| sec_text := Some (root_text +:+ text); sec_children := sec_children section |}
     | root => {| sec_text := Some root_text;
                  sec_children := set_tail_last root text ++ sec_children section |}
     end.

(** PyQuery's [append] takes markup as a string. *)
Definition py_markup (value : pyval) : pyres string :=
  match value with
  | PStr s => Ok s
  | _ => Raise TypeError
  end.

(** Lines 392 and 393: the manifest item of every chapter result. *)
Fixpoint append_manifests (chapter_results : list pyval) (manifest : section_dom)
    : pyres section_dom :=
  match chapter_results with
  | [] => Ok manifest
  | chapter :: rest =>
      try item <- py_getitem chapter "manifest";
      try markup <- py_markup item;
      try manifest' <- pq_append fromstring markup manifest;
      append_manifests rest manifest'
  end.

Definition publisher_item : string :=
  nl +:+ tab +:+ tab +:+ "<item id=" +:+ dq +:+ "publisher-note" +:+ dq +:+ " href=" +:+ dq
  +:+ "text/publisher-note.xhtml" +:+ dq +:+ " media-type=" +:+ dq +:+ "application/xhtml+xml"
  +:+ dq +:+ "/>".

Definition publisher_itemref : string :=
  nl +:+ tab +:+ tab +:+ "<itemref idref=" +:+ dq +:+ "publisher-note" +:+ dq +:+ "/>".

(** Lines 390 to 395: the package document gets the publisher note and the
    illustration of every chapter, and is written back. *)
Definition register_chapters (work_dir : string) (chapter_results : list pyval) : M unit :=
  let path := work_dir +:+ "/epub/content.opf" in
  do source <- read_file path;
  do pq <- lift (parse_opf source);
  do manifest <- lift (pq_prepend publisher_item (opf_manifest pq));
  do manifest <- lift (append_manifests chapter_results manifest);
  do spine <- lift (pq_prepend publisher_itemref (opf_spine pq));
  write_file path
    ("<?xml version=" +:+ dq +:+ "1.0" +:+ dq +:+ " encoding=" +:+ dq +:+ "utf-8" +:+ dq
     +:+ "?>" +:+ nl
     +:+ serialize_opf source {| opf_manifest := manifest; opf_spine := spine |}).

End Register.

(** ** An instance of the libraries, for closed examples *)

(** A stand-in for [str()], the examples formatting nothing but strings. *)
Definition no_repr (x : pyval) : string := EmptyString.

Definition table_loads (table : list (string * pyval)) (arguments : string) : pyres pyval :=
  match dict_get arguments table with
  | Some v => Ok v
  | None => Raise ParseError
  end.

(** The parser of this instance puts a whole fragment into one paragraph;
    its serializer writes tags, texts and tails and leaves attributes out;
    its decoder knows the argument strings of a table. *)
Definition demo_fromstring (value : string) : pyres (option string * list element) :=
  Ok (None, [Element "p" [] value [] EmptyString]).

Definition demo_find_section (chapter_xml : string) : pyres (option section_dom) :=
  if str_in "<section" chapter_xml
  then Ok (Some {| sec_text := Some EmptyString; sec_children := [] |})
  else Ok None.

Definition demo_section_text (section : section_dom) : string := "The cat sat.".

Fixpoint demo_serialize (e : element) : string :=
  match e with
  | Element tag _ text children tail =>
      "<" +:+ tag +:+ ">" +:+ text +:+ String.concat EmptyString (map demo_serialize children)
      +:+ "</" +:+ tag +:+ ">" +:+ tail
  end.

Definition demo_serialize_chapter (chapter_xml : string) (section : section_dom) : string :=
  default EmptyString (sec_text section)
  +:+ String.concat EmptyString (map demo_serialize (sec_children section)).

Definition demo_table : list (string * pyval) :=
  [ ("dialog", PDict [("items", PList [PDict [("speaker", PStr "SassBot"); ("line", PStr "Well.")]])]);
    ("annotate", PDict [("items", PList [])]);
    ("annotate again",
     PDict [("items", PList [PDict [("text", PStr "cat"); ("annotation", PStr "feline")]])]);
    ("addition", PDict [("existing_sentence", PStr "sat."); ("new_sentence", PStr "It purred.")]);
    ("illustration",
     PDict [("existing_sentence", PStr "The cat sat."); ("image_description", PStr "A cat")]) ].

(** A chat service that answers a free-text request with a precis and a
    tool request with arguments named after the tool; from its sixth
    request on, it has annotations to offer. *)
Definition demo_chat (k : nat) (kw : request) : pyres (list choice) :=
  match req_tool kw with
  | None => Ok [ {| content := PStr "A precis."; tool_calls := None |} ]
  | Some t =>
      let arguments :=
        if Nat.leb 5 k && String.eqb (tool_name t) "annotate" then "annotate again"
        else tool_name t in
      Ok [ {| content := PNone; tool_calls := Some [arguments] |} ]
  end.

(** The same service, failing on the first request it gets. *)
Definition flaky_chat (k : nat) (kw : request) : pyres (list choice) :=
  match k with
  | O => Raise RemoteCallError
  | _ => demo_chat k kw
  end.

Definition demo_image (k : nat) (image_prompt : string) : pyres string := Ok "PNG".

Definition demo_quantize (data : string) : pyres string := Ok ("small " +:+ data).

Definition in_order (count : nat) : schedule := {| latency := fun _ => 0; started := count |}.

Definition demo_process_chapter (chat : nat -> request -> pyres (list choice))
    (job : chapter_job) : M pyval :=
  process_chapter no_repr (table_loads demo_table) chat demo_image demo_quantize
    demo_find_section demo_section_text demo_fromstring demo_serialize_chapter
    "Write a precis." "Write a scene." "Annotate." "Add a sentence." "Illustrate."
    (in_order 5) job.

Definition demo_process_epub_chapters (chat : nat -> request -> pyres (list choice))
    (sched : schedule) (chapter_paths : list chapter_path) : M (list pyval) :=
  process_epub_chapters no_repr (table_loads demo_table) chat demo_image demo_quantize
    demo_find_section demo_section_text demo_fromstring demo_serialize_chapter
    "Write a precis." "Write a scene." "Annotate." "Add a sentence." "Illustrate."
    sched (fun _ => in_order 5) "Felis" "A. Nonymous" chapter_paths.

Definition demo_chapter_futures (chat : nat -> request -> pyres (list choice))
    (sched : schedule) (chapter_paths : list chapter_path) (w : world)
    : list (option (pyres pyval)) :=
  chapter_futures no_repr (table_loads demo_table) chat demo_image demo_quantize
    demo_find_section demo_section_text demo_fromstring demo_serialize_chapter
    "Write a precis." "Write a scene." "Annotate." "Add a sentence." "Illustrate."
    sched (fun _ => in_order 5) "Felis" "A. Nonymous" chapter_paths w.

Definition chapter (k : nat) : chapter_path :=
  {| epub_dir := "work_dir/epub"; stem := "chapter-" +:+ pretty k |}.

Definition chapter_source : string := "<section id=c>The cat sat.</section>".

(** A freshly unpacked book of [count] chapters, with an empty shelf. *)
Definition unpacked (count : nat) : world :=
  {| cache_db := ∅;
     files := list_to_map (map (fun k => (chapter_file (chapter k), chapter_source)) (seq 1 count));
     chat_calls := 0; image_calls := 0 |}.

Definition demo_job (k : nat) : chapter_job :=
  {| job_chapter_path := chapter k; job_title := "Felis"; job_author := "A. Nonymous" |}.

(** The chapter file put back as unpacked, everything else as it is. *)
Definition restore (c : chapter_path) (source : string) (w : world) : world :=
  {| cache_db := cache_db w; files := <[chapter_file c := source]> (files w);
     chat_calls := chat_calls w; image_calls := image_calls w |}.

(** ** Vocabulary of the properties, and data for closed examples *)

(** Three annotations, the second of which has no anchor in a text about a
    cat and a dog. *)
Definition three_annotations : pyval :=
  PList [ PDict [("text", PStr "cat"); ("annotation", PStr "feline")];
          PDict [("text", PStr "bird..."); ("annotation", PStr "avian")];
          PDict [("text", PStr "dog."); ("annotation", PStr "canine")] ].

(** An addition candidate with both fields of the Addition schema. *)
Definition candidate (existing new_sentence : string) : pyval :=
  PDict [("existing_sentence", PStr existing); ("new_sentence", PStr new_sentence)].

(** A world with one cached entry, and an image service that always
    answers. *)
Definition one_entry_world : world :=
  {| cache_db := {[ "precis_chapter-1" := PStr "A summary." ]}; files := ∅;
     chat_calls := 0; image_calls := 0 |}.

Definition still_image (k : nat) (image_prompt : string) : pyres string := Ok "PNG".

(** The choice carries a tool call whose arguments decode to a dict with
    the one field items, holding [v]. *)
Definition wraps_items (partial_json_loads : string -> pyres pyval) (c : choice) (v : pyval)
    : Prop :=
  exists arguments more,
    tool_calls c = Some (arguments :: more)
    /\ partial_json_loads arguments = Ok (PDict [("items", v)]).

(** Futures that are done stay as they are. *)
Definition keeps {R} (futures futures' : list (option (pyres R))) : Prop :=
  forall k r, futures !! k = Some (Some r) -> futures' !! k = Some (Some r).

(** Each future is empty or holds what its job returns. *)
Definition agrees {J R} (out : J -> pyres R) (futures : list (option (pyres R))) (jobs : list J)
    : Prop :=
  Forall2 (fun f j => f = None \/ f = Some (out j)) futures jobs.

(** A schedule under which five jobs complete in the reverse of their
    submission order, and a job function that returns the name of its job
    and records its completion in a shared log. *)
Definition reversed : schedule := {| latency := fun i => 5 - i; started := 5 |}.

Definition logged (j : string) (log : list string) : pyres string * list string :=
  (Ok j, log ++ [j]).

(** The position [k] places after [path], among the siblings. *)
Fixpoint shift_last (k : nat) (path : list nat) : list nat :=
  match path with
  | [] => []
  | [i] => [i + k]
  | i :: rest => i :: shift_last k rest
  end.

(** The element at a position below [e]; the empty position is [e]. *)
Definition below (path : list nat) (e : element) : option element :=
  match path with
  | [] => Some e
  | _ => match e with Element _ _ _ children _ => element_at path children end
  end.

(** A section of seven paragraphs, the third and fourth of them inside a
    block quote. *)
Definition seven_paragraphs : section_dom :=
  {| sec_text := Some EmptyString;
     sec_children :=
       [ Element "header" [] "Chapter 1" [] EmptyString;
         Element "p" [] "One." [] EmptyString;
         Element "p" [] "Two." [] EmptyString;
         Element "blockquote" [] EmptyString
           [Element "p" [] "Three." [] EmptyString; Element "p" [] "Four." [] EmptyString]
           EmptyString;
         Element "p" [] "Five." [] EmptyString;
         Element "p" [] "Six." [] EmptyString;
         Element "p" [] "Seven." [] EmptyString ] |}.

(** A decoder table none of whose entries decodes to an empty value, and a
    chat service that answers a tool request with arguments named after the
    tool. *)
Definition steady_table : list (string * pyval) :=
  [ ("dialog", PDict [("items", PList [PDict [("speaker", PStr "SassBot"); ("line", PStr "Well.")]])]);
    ("annotate",
     PDict [("items", PList [PDict [("text", PStr "cat"); ("annotation", PStr "feline")]])]);
    ("addition", PDict [("existing_sentence", PStr "sat."); ("new_sentence", PStr "It purred.")]);
    ("illustration",
     PDict [("existing_sentence", PStr "The cat sat."); ("image_description", PStr "A cat")]) ].

Definition steady_chat (k : nat) (kw : request) : pyres (list choice) :=
  match req_tool kw with
  | None => Ok [ {| content := PStr "A precis."; tool_calls := None |} ]
  | Some t => Ok [ {| content := PNone; tool_calls := Some [tool_name t] |} ]
  end.

Definition steady_process_chapter (sched : schedule) (job : chapter_job) : M pyval :=
  process_chapter no_repr (table_loads steady_table) steady_chat demo_image demo_quantize
    demo_find_section demo_section_text demo_fromstring demo_serialize_chapter
    "Write a precis." "Write a scene." "Annotate." "Add a sentence." "Illustrate."
    sched job.

(** The shelf holds no empty value: none that [if cached:] takes for a
    miss. *)
Definition shelf_truthy (w : world) : Prop :=
  forall k v, cache_db w !! k = Some v -> truthy v = true.

(** What the shelf of [w] holds, the shelf of [w'] holds too. *)
Definition extends (w w' : world) : Prop :=
  forall k v, cache_db w !! k = Some v -> cache_db w' !! k = Some v.

(** A result that was returned is on the shelf under [key]. *)
Definition recorded (key : string) (r : pyres pyval) (w : world) : Prop :=
  match r with
  | Ok v => cache_db w !! key = Some v
  | Raise _ => True
  end.

(** The result of a completion job is on the shelf under the key of the
    job, if the job has one. *)
Definition on_shelf (j : completion_job) (r : pyres pyval) (w : world) : Prop :=
  match key_given (job_cache_key j) with
  | Some key => recorded key r w
  | None => True
  end.

(** An image service that is down. *)
Definition failing_image (k : nat) (image_prompt : string) : pyres string :=
  Raise RemoteCallError.

(** A commentary with a line that has no text and an entry that is no
    dict, between two well-formed lines. *)
Definition dialogue_line (speaker line : string) : pyval :=
  PDict [("speaker", PStr speaker); ("line", PStr line)].

Definition no_children : section_dom := {| sec_text := Some EmptyString; sec_children := [] |}.

(** The id of the footnote of the annotation at index [i] (line 278). *)
Definition note_id (stem : string) (i : nat) : string := stem +:+ "-note" +:+ pretty i.

(** One rendered line of the commentary, and the block of all lines
    (lines 313 and 314). *)
Definition commentary_paragraph (speaker line : string) : string :=
  "<p><strong class=" +:+ dq +:+ speaker +:+ dq +:+ ">" +:+ speaker +:+ ":</strong> " +:+ line
  +:+ "</p>".

Definition commentary_box (whitespace : string) (lines : list string) : string :=
  whitespace +:+ "<div class=" +:+ dq +:+ "ai-commentary annotation-box" +:+ dq +:+ ">"
  +:+ whitespace +:+ tab +:+ str_join (whitespace +:+ tab) lines +:+ whitespace +:+ "</div>".

(** What a piece of the script may do to the world, whether it returns or
    raises: at most [a] requests to the chat service, at most [b] to the
    image service; of the files of the book and of the work directory, it
    writes the [allowed] ones only; and the shelf file it may write, but
    an entry that holds a non-empty value is neither changed nor removed. *)
Definition confined (allowed : string -> Prop) (a b : nat) {A} (c : M A) : Prop :=
  forall w,
    chat_calls (snd (c w)) <= chat_calls w + a
    /\ image_calls (snd (c w)) <= image_calls w + b
    /\ (forall path, ~ allowed path -> files (snd (c w)) !! path = files w !! path)
    /\ (forall key v,
          cache_db w !! key = Some v -> truthy v = true ->
          cache_db (snd (c w)) !! key = Some v).

(** A package document, for closed examples. *)
Definition demo_parse_opf (source : string) : pyres opf :=
  Ok {| opf_manifest := no_children; opf_spine := no_children |}.

Definition demo_serialize_opf (source : string) (pq : opf) : string :=
  demo_serialize_chapter source (opf_manifest pq) +:+ demo_serialize_chapter source (opf_spine pq).

(** An element without the text that follows it: what appending and
    prepending to its parent leave as it is. *)
Definition sans_tail (e : element) : string * list (string * string) * string * list element :=
  match e with Element tag attrib text children _ => (tag, attrib, text, children) end.

(** The package document that [register_chapters] writes to [path]. *)
Definition registered (serialize_opf : string -> opf -> string) (source : string)
    (manifest spine : section_dom) : string :=
  "<?xml version=" +:+ dq +:+ "1.0" +:+ dq +:+ " encoding=" +:+ dq +:+ "utf-8" +:+ dq
  +:+ "?>" +:+ nl
  +:+ serialize_opf source {| opf_manifest := manifest; opf_spine := spine |}.

(** A package document whose manifest has one entry, and a work directory
    holding it, for closed examples. *)
Definition one_item_opf (source : string) : pyres opf :=
  Ok {| opf_manifest :=
          {| sec_text := None;
             sec_children := [Element "item" [("id", "cover")] EmptyString [] nl] |};
        opf_spine := no_children |}.

Definition work_dir_world : world :=
  {| cache_db := ∅; files := {[ "work_dir/epub/content.opf" := "<package/>" ]};
     chat_calls := 0; image_calls := 0 |}.

(** The files a chapter run writes: the chapter and its illustration. *)
Definition own (c : chapter_path) (path : string) : Prop :=
  path = chapter_file c \/ path = illustration_file c.

(** The reference marker as line 279 writes it, the reader being the
    Publisher of line 277: a link to the footnote [id] that shows
    [number]. *)
Definition numbered_marker (id : string) (number : nat) : string :=
  "<a class=" +:+ dq +:+ "noteref Publisher" +:+ dq +:+ " epub:type=" +:+ dq +:+ "noteref"
  +:+ dq +:+ " href=" +:+ dq +:+ "#" +:+ id +:+ dq +:+ "><sup>" +:+ pretty number
  +:+ "</sup></a>".

(** The footnote block as line 281 writes it for that reader. *)
Definition publisher_aside (whitespace id note : string) : string :=
  whitespace +:+ "<aside class=" +:+ dq +:+ "footnote" +:+ dq +:+ " epub:type=" +:+ dq
  +:+ "footnote" +:+ dq +:+ " id=" +:+ dq +:+ id +:+ dq +:+ "><strong>Publisher:</strong> "
  +:+ note +:+ "</aside>".

(** A footnote that was made is described by the index of its annotation in
    the list, its anchor and its note.  [mark stem xml (number, entry)] is
    the markup [xml] once the marker of the entry, showing [number], is put
    behind the first occurrence of the anchor. *)
Definition mark (stem xml : string) (ne : nat * (nat * (string * string))) : string :=
  replace1 (fst (snd (snd ne)))
    (fst (snd (snd ne)) +:+ numbered_marker (note_id stem (fst (snd ne))) (fst ne)) xml.

(** An annotation that gets no footnote on the markup [xml] without an
    error: line 273 skips it, or its stripped text is not in [xml]. *)
Definition passed_over (annotation : pyval) (xml : string) : Prop :=
  skip_annotation annotation = Ok true
  \/ exists raw, py_getitem annotation "text" = Ok (PStr raw)
                 /\ str_in (rstrip_dot raw) xml = false.

(** The anchors a chapter run may look for: the stripped texts of the
    annotations and the existing sentences of the addition candidates. *)
Definition items_of (x : pyval) : list pyval :=
  match py_iter x with
  | Ok items => items
  | Raise _ => []
  end.

Definition annotation_anchor (annotation : pyval) : list string :=
  match py_getitem annotation "text" with
  | Ok (PStr raw) => [rstrip_dot raw]
  | _ => []
  end.

Definition addition_anchor (addition : pyval) : list string :=
  match py_getitem addition "existing_sentence" with
  | Ok (PStr existing) => [existing]
  | _ => []
  end.

Definition anchors_of (annotations additions : pyval) : list string :=
  flat_map annotation_anchor (items_of annotations)
  ++ flat_map addition_anchor (items_of additions).

(** [s'] is [s] with a fragment put right behind an occurrence of one of
    the [anchors]. *)
Definition inserts_behind (anchors : list string) (s s' : string) : Prop :=
  exists anchor before inserted behind,
    In anchor anchors
    /\ s = before +:+ anchor +:+ behind
    /\ s' = before +:+ anchor +:+ inserted +:+ behind.

(** * Properties *)

(** ** Results and dictionaries *)

Lemma rbind_ok {A B} (r : pyres A) (k : A -> pyres B) (b : B) :
  rbind r k = Ok b -> exists a, r = Ok a /\ k a = Ok b.
Proof. destruct r as [a|e]; simpl; intros H; [eauto | discriminate]. Qed.

Lemma dict_get_set_eq k v d : dict_get k (dict_set k v d) = Some v.
Proof.
  induction d as [|[k' v'] d IH]; simpl.
  - by rewrite String.eqb_refl.
  - destruct (String.eqb k k') eqn:E; simpl; rewrite E; [done | exact IH].
Qed.

Lemma dict_get_set_ne k k' v d : k <> k' -> dict_get k' (dict_set k v d) = dict_get k' d.
Proof.
  intros Hne. induction d as [|[k0 v0] d IH]; simpl.
  - destruct (String.eqb k' k) eqn:E; [|done].
    apply String.eqb_eq in E. congruence.
  - destruct (String.eqb k k0) eqn:E; simpl.
    + apply String.eqb_eq in E. subst k0.
      destruct (String.eqb k' k) eqn:E'; [|done].
      apply String.eqb_eq in E'. congruence.
    + by rewrite IH.
Qed.

(** Takes apart the first [try] of a hypothesis that says a computation
    returned. *)
Ltac try_ok H :=
  let a := fresh "a" in
  let Ha := fresh "Ha" in
  apply rbind_ok in H; destruct H as (a & Ha & H).

(** ** Footnotes *)

Section FootnoteProperties.

Variable py_str : pyval -> string.

Lemma numbered_marker_noteref id number :
  noteref "Publisher" id number = numbered_marker id number.
Proof. reflexivity. Qed.

Lemma publisher_aside_footnote whitespace id note :
  footnote_aside whitespace id "Publisher" note = publisher_aside whitespace id note.
Proof. reflexivity. Qed.

(** One turn of the loop: the annotation is passed over and nothing
    changes, or its anchor is in the markup and it gets the marker showing
    the counter, behind the first occurrence of the anchor. *)
Lemma annotation_step_turn stem whitespace st i annotation st' :
  annotation_step py_str stem whitespace st i annotation = Ok st' ->
  (st' = st /\ passed_over annotation (section_xml st))
  \/ exists raw note,
       py_getitem annotation "text" = Ok (PStr raw)
       /\ py_getitem annotation "annotation" = Ok note
       /\ str_in (rstrip_dot raw) (section_xml st) = true
       /\ section_xml st'
          = mark stem (section_xml st)
              (footnote_number st, (i, (rstrip_dot raw, fmt py_str note)))
       /\ footnote_number st' = S (footnote_number st)
       /\ section_append st'
          = section_append st
            ++ [publisher_aside whitespace (note_id stem i) (fmt py_str note)].
Proof.
  unfold annotation_step. intros H.
  try_ok H. destruct a; [left; split; [congruence|by left]|].
  try_ok H. try_ok H.
  destruct a as [| | |raw| | |]; try discriminate. injection Ha1 as <-.
  destruct (str_in (rstrip_dot raw) (section_xml st)) eqn:Hin;
    [|left; split; [congruence|right; by exists raw]].
  try_ok H.
  destruct annotation as [| | | | | |d]; try discriminate. injection Ha1 as <-.
  assert (py_getitem (PDict (dict_set "reader" (PStr "Publisher") d)) "reader"
          = Ok (PStr "Publisher")) as Hreader.
  { unfold py_getitem. by rewrite dict_get_set_eq. }
  rewrite Hreader in H. cbn [rbind] in H.
  try_ok H. injection H as <-. right.
  exists raw, a. split; [exact Ha0|]. split.
  { unfold py_getitem in *. by rewrite dict_get_set_ne in Ha1. }
  split; [exact Hin|].
  cbn [section_xml footnote_number section_append]. split; [reflexivity|].
  split; [apply Nat.add_1_r|reflexivity].
Qed.

Lemma sublist_seq_le (l : list nat) a n : sublist l (seq a n) -> Forall (fun x => a <= x) l.
Proof.
  intros Hsub. apply Forall_forall. intros x Hx.
  apply sublist_submseteq in Hsub. apply (elem_of_submseteq _ _ _ Hx) in Hsub.
  apply elem_of_seq in Hsub. lia.
Qed.

Lemma filter_below_nil (entries : list (nat * (string * string))) i :
  Forall (fun x => S i <= x) (map fst entries) ->
  List.filter (fun e => Nat.ltb (fst e) i) entries = [].
Proof.
  induction entries as [|e entries IH]; [reflexivity|].
  cbn [map List.filter]. intros Hall. inversion Hall as [|x l Hx Hrest]; subst.
  destruct (Nat.ltb_spec (fst e) i); [lia|]. by apply IH.
Qed.

(** The loop from the index [i0] on: the footnotes it makes, in the order
    of making.  Each belongs to an annotation of the list, whose anchor was
    in the markup at its turn; each annotation without one was passed over
    at its turn; the markers show the numbers from the counter on. *)
Lemma annotation_loop_trace stem whitespace items : forall i0 st st',
  annotation_loop py_str stem whitespace i0 items st = Ok st' ->
  exists entries : list (nat * (string * string)),
    sublist (map fst entries) (seq i0 (length items))
    /\ Forall (fun e =>
                 exists annotation raw note,
                   i0 <= fst e
                   /\ items !! (fst e - i0) = Some annotation
                   /\ py_getitem annotation "text" = Ok (PStr raw)
                   /\ fst (snd e) = rstrip_dot raw
                   /\ py_getitem annotation "annotation" = Ok note
                   /\ snd (snd e) = fmt py_str note) entries
    /\ (forall j e, entries !! j = Some e ->
          str_in (fst (snd e))
            (fold_left (mark stem) (combine (seq (footnote_number st) j) entries)
               (section_xml st)) = true)
    /\ (forall r annotation,
          items !! r = Some annotation -> ~ In (i0 + r) (map fst entries) ->
          passed_over annotation
            (fold_left (mark stem)
               (combine
                  (seq (footnote_number st)
                     (length (List.filter (fun e => Nat.ltb (fst e) (i0 + r)) entries)))
                  entries)
               (section_xml st)))
    /\ section_xml st'
       = fold_left (mark stem) (combine (seq (footnote_number st) (length entries)) entries)
           (section_xml st)
    /\ footnote_number st' = footnote_number st + length entries
    /\ section_append st'
       = section_append st
         ++ map (fun e => publisher_aside whitespace (note_id stem (fst e)) (snd (snd e)))
              entries.
Proof.
  induction items as [|a items IH]; intros i0 st st' H; cbn [annotation_loop] in H.
  - injection H as <-. exists [].
    split; [apply sublist_nil_l|]. split; [constructor|].
    split; [intros j e Hj; by rewrite lookup_nil in Hj|].
    split; [intros r annotation Hr; by rewrite lookup_nil in Hr|].
    cbn [length seq combine fold_left map]. rewrite app_nil_r, Nat.add_0_r. done.
  - try_ok H. apply IH in H as (entries & Hsub & Htie & Hocc & Hpass & Hxml & Hnum & Happ).
    pose proof (sublist_seq_le _ _ _ Hsub) as Hle.
    apply annotation_step_turn in Ha
      as [[-> Hover]|(raw & note & Htext & Hnote & Hin & Hx & Hn & Hs)].
    + exists entries. split; [cbn [length seq]; by apply sublist_cons|].
      split.
      { rewrite Forall_forall in Htie |- *. intros e He.
        destruct (Htie e He) as (annotation & raw & note & Hi & Hit & Hrest).
        exists annotation, raw, note. split; [lia|]. split; [|exact Hrest].
        replace (fst e - i0) with (S (fst e - S i0)) by lia. exact Hit. }
      split; [exact Hocc|]. split; [|done].
      intros [|r] annotation Hr Hnotin.
      * injection Hr as <-. rewrite Nat.add_0_r.
        rewrite (filter_below_nil entries i0 Hle). exact Hover.
      * replace (i0 + S r) with (S i0 + r) in * by lia. by apply Hpass.
    + exists ((i0, (rstrip_dot raw, fmt py_str note)) :: entries).
      rewrite Hx, Hn in Hxml. rewrite Hx, Hn in Hocc. rewrite Hx, Hn in Hpass.
      split; [cbn [map fst length seq]; by apply sublist_skip|].
      split.
      { constructor.
        - exists a, raw, note. cbn [fst snd]. rewrite Nat.sub_diag. done.
        - rewrite Forall_forall in Htie |- *. intros e He.
          destruct (Htie e He) as (annotation & raw' & note' & Hi & Hit & Hrest).
          exists annotation, raw', note'. split; [lia|]. split; [|exact Hrest].
          replace (fst e - i0) with (S (fst e - S i0)) by lia. exact Hit. }
      split.
      { intros [|j] e Hj.
        - injection Hj as <-. exact Hin.
        - cbn [seq combine fold_left]. by apply Hocc. }
      split.
      { intros [|r] annotation Hr Hnotin.
        - exfalso. apply Hnotin. left. cbn [fst]. lia.
        - cbn [List.filter fst]. destruct (Nat.ltb_spec i0 (i0 + S r)); [|lia].
          cbn [length seq combine fold_left].
          replace (i0 + S r) with (S i0 + r) in * by lia. apply Hpass; [exact Hr|].
          intros Hmem. apply Hnotin. by right. }
      cbn [length seq combine fold_left map].
      rewrite Hxml, Hnum, Hn, Happ, Hs, <- app_assoc. repeat split; (lia || done).
Qed.

End FootnoteProperties.

(** C4. Footnote numbers are sequential from 1 over the anchors that were
    found.  When the footnote step returns on a list of annotations, the
    footnotes it made are those of k annotations of the list, taken in list
    order.  The anchor of each, the text of its annotation with the
    trailing periods stripped, was in the markup at its turn, and the
    marker put behind it shows the next number: the j-th marker written
    shows j, so the numbers in the markup are 1 to k.  Every other
    annotation was passed over at its turn, skipped or its anchor not in
    the markup then, and used up no number. *)
Theorem footnote_numbers_sequential py_str stem whitespace xml items st :
  footnotes py_str stem whitespace xml (PList items) = Ok st ->
  exists entries : list (nat * (string * string)),
    sublist (map fst entries) (seq 0 (length items))
    /\ (forall j e, entries !! j = Some e ->
          (exists annotation raw,
              items !! fst e = Some annotation
              /\ py_getitem annotation "text" = Ok (PStr raw)
              /\ fst (snd e) = rstrip_dot raw)
          /\ str_in (fst (snd e))
               (fold_left (mark stem) (combine (seq 1 j) entries) xml) = true)
    /\ (forall i annotation,
          items !! i = Some annotation -> ~ In i (map fst entries) ->
          passed_over annotation
            (fold_left (mark stem)
               (combine
                  (seq 1 (length (List.filter (fun e => Nat.ltb (fst e) i) entries)))
                  entries)
               xml))
    /\ section_xml st
       = fold_left (mark stem) (combine (seq 1 (length entries)) entries) xml
    /\ footnote_number st = S (length entries).
Proof.
  unfold footnotes. intros H.
  destruct (truthy (PList items)) eqn:Htruthy.
  - cbn [py_iter rbind] in H.
    apply annotation_loop_trace in H
      as (entries & Hsub & Htie & Hocc & Hpass & Hxml & Hnum & _).
    cbn [section_xml footnote_number] in *.
    exists entries. split; [exact Hsub|]. split.
    { intros j e Hj. split; [|by apply Hocc].
      rewrite Forall_forall in Htie.
      destruct (Htie e (list_elem_of_lookup_2 _ _ _ Hj))
        as (annotation & raw & note & _ & Hi & Htext & Hanchor & _).
      rewrite Nat.sub_0_r in Hi. by exists annotation, raw. }
    split; [intros i annotation Hi Hnotin; by apply (Hpass i)|].
    split; [exact Hxml|]. lia.
  - destruct items; [|discriminate]. injection H as <-. exists [].
    split; [apply sublist_nil_l|].
    split; [intros j e Hj; by rewrite lookup_nil in Hj|].
    split; [intros i annotation Hi; by rewrite lookup_nil in Hi|]. done.
Qed.

(** Of three annotations only the first and the third have their anchor in
    the text: their markers show 1 and 2. *)
Lemma footnote_numbers_sequential_witness :
  exists st,
    footnotes no_repr "ch1" EmptyString "the cat sat. the dog ran." three_annotations = Ok st
    /\ section_xml st
       = "the cat" +:+ numbered_marker "ch1-note0" 1 +:+ " sat. the dog"
         +:+ numbered_marker "ch1-note2" 2 +:+ " ran."
    /\ exists entries : list (nat * (string * string)),
         sublist (map fst entries) (seq 0 3)
         /\ (forall j e, entries !! j = Some e ->
               (exists annotation raw,
                   [ PDict [("text", PStr "cat"); ("annotation", PStr "feline")];
                     PDict [("text", PStr "bird..."); ("annotation", PStr "avian")];
                     PDict [("text", PStr "dog."); ("annotation", PStr "canine")] ] !! fst e
                   = Some annotation
                   /\ py_getitem annotation "text" = Ok (PStr raw)
                   /\ fst (snd e) = rstrip_dot raw)
               /\ str_in (fst (snd e))
                    (fold_left (mark "ch1") (combine (seq 1 j) entries)
                       "the cat sat. the dog ran.") = true)
         /\ (forall i annotation,
               [ PDict [("text", PStr "cat"); ("annotation", PStr "feline")];
                 PDict [("text", PStr "bird..."); ("annotation", PStr "avian")];
                 PDict [("text", PStr "dog."); ("annotation", PStr "canine")] ] !! i
               = Some annotation ->
               ~ In i (map fst entries) ->
               passed_over annotation
                 (fold_left (mark "ch1")
                    (combine
                       (seq 1 (length (List.filter (fun e => Nat.ltb (fst e) i) entries)))
                       entries)
                    "the cat sat. the dog ran."))
         /\ section_xml st
            = fold_left (mark "ch1") (combine (seq 1 (length entries)) entries)
                "the cat sat. the dog ran."
         /\ footnote_number st = S (length entries).
Proof.
  eexists. split; [vm_compute; reflexivity|]. split; [vm_compute; reflexivity|].
  apply (footnote_numbers_sequential no_repr "ch1" EmptyString "the cat sat. the dog ran."
           [ PDict [("text", PStr "cat"); ("annotation", PStr "feline")];
             PDict [("text", PStr "bird..."); ("annotation", PStr "avian")];
             PDict [("text", PStr "dog."); ("annotation", PStr "canine")] ]).
  vm_compute. reflexivity.
Defined.

(** On a dict, the condition of line 273 holds when text is missing and
    annotation is present, and in no other case. *)
Lemma skip_annotation_dict d :
  skip_annotation (PDict d) = Ok (negb (dict_has "text" d) && dict_has "annotation" d).
Proof.
  unfold skip_annotation. cbn [py_contains rbind]. by destruct (dict_has "text" d).
Qed.

(** C1, evaluated.  The condition of line 273 skips an item only when it
    lacks text and has annotation: an item that lacks both fields raises
    KeyError at its text, and one that has a found text and lacks annotation
    raises KeyError at its annotation. *)
Theorem footnote_skip_condition_defect :
  footnotes no_repr "ch1" EmptyString "the cat sat" (PList [PDict []]) = Raise (KeyError "text")
  /\ footnotes no_repr "ch1" EmptyString "the cat sat" (PList [PDict [("text", PStr "cat")]])
     = Raise (KeyError "annotation")
  /\ skip_annotation (PDict []) = Ok false
  /\ skip_annotation (PDict [("text", PStr "cat")]) = Ok false
  /\ skip_annotation (PDict [("annotation", PStr "feline")]) = Ok true.
Proof. vm_compute. repeat split; reflexivity. Qed.

(** C3, as stated, fails.  The anchor [Hello.] does not occur in the markup,
    yet the markup is changed, since the search is for the anchor with its
    trailing periods removed; and the anchor [noteref] does not occur in the
    chapter markup, yet it is annotated, since the search is in the markup
    as the earlier footnote left it. *)
Lemma anchor_skip_counterexample :
  (str_in "Hello." "Hello world" = false
   /\ exists st,
        footnotes no_repr "ch1" EmptyString "Hello world"
          (PList [PDict [("text", PStr "Hello."); ("annotation", PStr "a greeting")]]) = Ok st
        /\ String.eqb (section_xml st) "Hello world" = false)
  /\ (str_in "noteref" "the cat sat" = false
      /\ exists st,
           footnotes no_repr "ch1" EmptyString "the cat sat"
             (PList [PDict [("text", PStr "cat"); ("annotation", PStr "feline")];
                     PDict [("text", PStr "noteref"); ("annotation", PStr "sic")]]) = Ok st
           /\ noterefs st = [1; 2]).
Proof.
  split; (split; [reflexivity|]); eexists; (split; [vm_compute; reflexivity|]); reflexivity.
Qed.

Lemma annotation_step_not_found py_str stem whitespace st i annotation raw :
  py_getitem annotation "text" = Ok (PStr raw) ->
  str_in (rstrip_dot raw) (section_xml st) = false ->
  annotation_step py_str stem whitespace st i annotation = Ok st.
Proof.
  intros Hraw Hin.
  unfold annotation_step, skip_annotation.
  destruct annotation; try discriminate.
  unfold py_getitem in Hraw. cbn [py_contains rbind]. unfold dict_has.
  destruct (dict_get "text" d) eqn:Hd; [|discriminate]. injection Hraw as ->.
  cbn [negb rbind py_getitem]. rewrite Hd. cbn [rbind py_rstrip_dot].
  by rewrite Hin.
Qed.

Lemma addition_loop_not_found py_str whitespace addition rest xml pending existing :
  py_getitem addition "existing_sentence" = Ok (PStr existing) ->
  str_in existing xml = false ->
  addition_loop py_str whitespace (addition :: rest) xml pending
  = addition_loop py_str whitespace rest xml pending.
Proof.
  intros He Hin. cbn [addition_loop]. rewrite He. cbn [rbind py_in_str]. by rewrite Hin.
Qed.

(** C3, amended.  An annotation whose anchor, with its trailing periods
    removed, does not occur in the current markup leaves the markup, the
    counter and the pending blocks as they were and raises nothing; an
    addition candidate whose anchor sentence does not occur in the current
    markup is passed over likewise, and the scan goes on with the next
    candidate. *)
Theorem anchor_skip_safety py_str stem whitespace :
  (forall st i annotation raw,
      py_getitem annotation "text" = Ok (PStr raw) ->
      str_in (rstrip_dot raw) (section_xml st) = false ->
      annotation_step py_str stem whitespace st i annotation = Ok st)
  /\ (forall addition rest xml pending existing,
      py_getitem addition "existing_sentence" = Ok (PStr existing) ->
      str_in existing xml = false ->
      addition_loop py_str whitespace (addition :: rest) xml pending
      = addition_loop py_str whitespace rest xml pending).
Proof.
  split.
  - intros. by eapply annotation_step_not_found.
  - intros. by eapply addition_loop_not_found.
Qed.

Lemma anchor_skip_safety_witness :
  annotation_step no_repr "ch1" EmptyString
    {| section_xml := "the cat sat"; footnote_number := 1; section_append := []; noterefs := [] |}
    0 (PDict [("text", PStr "dog..."); ("annotation", PStr "canine")])
  = Ok {| section_xml := "the cat sat"; footnote_number := 1; section_append := [];
          noterefs := [] |}
  /\ addition_loop no_repr EmptyString [candidate "The dog ran." "It barked."] "the cat sat" []
     = addition_loop no_repr EmptyString [] "the cat sat" [].
Proof.
  destruct (anchor_skip_safety no_repr "ch1" EmptyString) as [Hannotation Haddition].
  split.
  - apply Hannotation with (raw := "dog..."); reflexivity.
  - apply Haddition with (existing := "The dog ran."); reflexivity.
Defined.

(** ** Sentence addition *)

Lemma addition_loop_skips py_str whitespace xml pending before rest :
  Forall (fun a => exists e, py_getitem a "existing_sentence" = Ok (PStr e)
                             /\ str_in e xml = false) before ->
  addition_loop py_str whitespace (before ++ rest) xml pending
  = addition_loop py_str whitespace rest xml pending.
Proof.
  induction 1 as [|a before (e & He & Hin) _ IH]; [reflexivity|].
  rewrite <- app_comm_cons.
  rewrite (addition_loop_not_found py_str whitespace a _ xml pending e He Hin).
  exact IH.
Qed.

Lemma addition_loop_found py_str whitespace addition rest xml pending existing new_sentence :
  py_getitem addition "existing_sentence" = Ok (PStr existing) ->
  str_in existing xml = true ->
  py_getitem addition "new_sentence" = Ok new_sentence ->
  addition_loop py_str whitespace (addition :: rest) xml pending
  = Ok (replace1 existing (existing +:+ " " +:+ fmt py_str new_sentence) xml,
        pending ++ [addition_box whitespace (fmt py_str new_sentence)]).
Proof.
  intros He Hin Hn. cbn [addition_loop]. rewrite He. cbn [rbind py_in_str].
  rewrite Hin, Hn. reflexivity.
Qed.

(** No candidate has its anchor in the markup: nothing is inserted. *)
Lemma addition_loop_none py_str whitespace xml pending candidates :
  Forall (fun a => exists e, py_getitem a "existing_sentence" = Ok (PStr e)
                             /\ str_in e xml = false) candidates ->
  addition_loop py_str whitespace candidates xml pending = Ok (xml, pending).
Proof.
  intros H. rewrite <- (app_nil_r candidates). by rewrite addition_loop_skips.
Qed.

(** C5. The candidates are scanned in order and the first whose anchor
    sentence occurs in the current markup is applied: its first occurrence
    is followed by a space and the new sentence, one explanatory block is
    queued, and the scan stops there, whatever the later candidates are, so
    that no later candidate is applied and one sentence at most is
    inserted. *)
Theorem first_matching_addition py_str whitespace xml pending before addition later
    existing new_sentence :
  Forall (fun a => exists e, py_getitem a "existing_sentence" = Ok (PStr e)
                             /\ str_in e xml = false) before ->
  py_getitem addition "existing_sentence" = Ok (PStr existing) ->
  str_in existing xml = true ->
  py_getitem addition "new_sentence" = Ok new_sentence ->
  sentence_addition py_str whitespace (PList (before ++ addition :: later)) xml pending
  = Ok (replace1 existing (existing +:+ " " +:+ fmt py_str new_sentence) xml,
        pending ++ [addition_box whitespace (fmt py_str new_sentence)]).
Proof.
  intros Hbefore He Hin Hn. unfold sentence_addition. cbn [py_iter rbind].
  rewrite addition_loop_skips by exact Hbefore.
  by apply addition_loop_found.
Qed.

(** Five candidates, the third and the fifth of which have their anchor in
    the text: the third is applied, the fifth is not. *)
Lemma first_matching_addition_witness :
  sentence_addition no_repr EmptyString
    (PList ([candidate "Y." "N1"; candidate "Z." "N2"]
            ++ candidate "B." "N3" :: [candidate "X." "N4"; candidate "C." "N5"]))
    "A. B. C." []
  = Ok ("A. B. N3 C.", [addition_box EmptyString "N3"]).
Proof.
  apply (first_matching_addition no_repr EmptyString "A. B. C." []
           [candidate "Y." "N1"; candidate "Z." "N2"] (candidate "B." "N3")
           [candidate "X." "N4"; candidate "C." "N5"] "B." (PStr "N3")).
  - repeat constructor; eexists; split; reflexivity.
  - reflexivity.
  - reflexivity.
  - reflexivity.
Defined.

(** ** Caching *)

Lemma cached_without_key {A} (func : A -> M pyval) cache_key args :
  key_given cache_key = None -> cached func cache_key args = func args.
Proof. unfold cached. by intros ->. Qed.

Lemma key_given_none_inv cache_key :
  key_given cache_key = None <-> cache_key = None \/ cache_key = Some EmptyString.
Proof.
  destruct cache_key as [k|]; cbn [key_given]; [|tauto].
  destruct (String.eqb k EmptyString) eqn:E.
  - apply String.eqb_eq in E. subst. tauto.
  - apply String.eqb_neq in E. split; [discriminate|]. intros [?|[=]]; congruence.
Qed.

(** C10. Called without a cache key, or with an empty one, the wrapper is
    the wrapped function: that function is run in the world as it is, the
    result and the world it leaves are the result and the world of the
    call, and the shelf is neither consulted nor written, so that it holds
    after the call what it held before whenever the function itself leaves
    it alone. *)
Theorem cached_no_key_frame {A} (func : A -> M pyval) cache_key args w :
  cache_key = None \/ cache_key = Some EmptyString ->
  cached func cache_key args w = func args w
  /\ (cache_db (snd (func args w)) = cache_db w ->
      cache_db (snd (cached func cache_key args w)) = cache_db w).
Proof.
  intros Hkey. apply key_given_none_inv in Hkey.
  rewrite (cached_without_key func cache_key args Hkey). tauto.
Qed.

(** The three decorated functions leave the shelf alone. *)
Lemma get_completion_text_cache loads backend kw w :
  cache_db (snd (get_completion_text loads backend kw w)) = cache_db w.
Proof. reflexivity. Qed.

Lemma get_image_cache backend image_prompt w :
  cache_db (snd (get_image backend image_prompt w)) = cache_db w.
Proof. reflexivity. Qed.

Lemma compress_image_cache quantize data w :
  cache_db (snd (compress_image quantize data w)) = cache_db w.
Proof. destruct data; reflexivity. Qed.

Lemma cached_no_key_frame_witness :
  cached (get_image still_image) None "An engraving" one_entry_world
  = get_image still_image "An engraving" one_entry_world
  /\ (cache_db (snd (get_image still_image "An engraving" one_entry_world))
      = cache_db one_entry_world ->
      cache_db (snd (cached (get_image still_image) None "An engraving" one_entry_world))
      = cache_db one_entry_world).
Proof.
  apply (cached_no_key_frame (get_image still_image) None "An engraving" one_entry_world).
  left. reflexivity.
Defined.

(** ** Remote call adapter *)

Lemma unwrap_items_only v : unwrap_items (PDict [("items", v)]) = Ok v.
Proof. reflexivity. Qed.

Section AdapterProperties.

Variable partial_json_loads : string -> pyres pyval.

Lemma tool_output_items c v :
  wraps_items partial_json_loads c v -> tool_output partial_json_loads c = Ok v.
Proof.
  intros (arguments & more & Hcalls & Hloads). unfold tool_output.
  rewrite Hcalls, Hloads. reflexivity.
Qed.

Lemma mapM_tool_output_items choices values :
  Forall2 (wraps_items partial_json_loads) choices values ->
  mapM_res (tool_output partial_json_loads) choices = Ok values.
Proof.
  induction 1 as [|c v choices values Hc _ IH]; [reflexivity|].
  cbn [mapM_res]. rewrite (tool_output_items c v Hc). cbn [rbind]. rewrite IH. reflexivity.
Qed.

End AdapterProperties.

(** C8. With a list-shaped tool (one made by make_openai_tool_list), when
    the arguments of every choice of the response decode to exactly the
    enclosing field items holding a list, the adapter returns that list
    itself, its items in their order, in place of the enclosing dict: the
    list of the first choice when no sample count is given, and the list of
    these lists, one per choice, when one is. *)
Theorem list_schema_unwrapped partial_json_loads chat_backend kw w name description m
    choices (itemss : list (list pyval)) :
  req_tool kw = Some (make_openai_tool_list name description m) ->
  chat_backend (chat_calls w) kw = Ok choices ->
  Forall2 (wraps_items partial_json_loads) choices (map PList itemss) ->
  fst (get_completion_text partial_json_loads chat_backend kw w)
  = match n kw with
    | Some _ => Ok (PList (map PList itemss))
    | None => match itemss with
              | items :: _ => Ok (PList items)
              | [] => Raise IndexError
              end
    end.
Proof.
  intros Htool Hreply Hchoices.
  unfold get_completion_text. cbn [fst]. rewrite Hreply. cbn [rbind].
  unfold completion_output. rewrite Htool.
  rewrite (mapM_tool_output_items partial_json_loads choices _ Hchoices). cbn [rbind].
  destruct (n kw); [reflexivity|]. by destruct itemss.
Qed.

Lemma list_schema_unwrapped_witness :
  fst (get_completion_text
         (table_loads [("ARGS", PDict [("items", three_annotations)])])
         (fun _ _ => Ok [ {| content := PNone; tool_calls := Some ["ARGS"] |} ])
         {| prompt := "Annotate."; req_tool := Some annotate_tool;
            temperature := Some "1.2"; n := None |}
         one_entry_world)
  = Ok three_annotations.
Proof.
  apply (list_schema_unwrapped
           (table_loads [("ARGS", PDict [("items", three_annotations)])])
           (fun _ _ => Ok [ {| content := PNone; tool_calls := Some ["ARGS"] |} ])
           {| prompt := "Annotate."; req_tool := Some annotate_tool;
              temperature := Some "1.2"; n := None |}
           one_entry_world "annotate" "Handle list of annotations" Annotation
           [ {| content := PNone; tool_calls := Some ["ARGS"] |} ]
           [ [ PDict [("text", PStr "cat"); ("annotation", PStr "feline")];
               PDict [("text", PStr "bird..."); ("annotation", PStr "avian")];
               PDict [("text", PStr "dog."); ("annotation", PStr "canine")] ] ]).
  - reflexivity.
  - reflexivity.
  - repeat constructor. exists "ARGS", []. split; reflexivity.
Defined.

(** ** Dispatcher *)

Lemma insert_by_perm lat i l : Permutation (insert_by lat i l) (i :: l).
Proof.
  induction l as [|j l IH]; cbn [insert_by]; [done|].
  destruct (Nat.leb (lat i) (lat j)); [done|].
  rewrite IH. apply perm_swap.
Qed.

Lemma completion_order_perm lat count :
  Permutation (completion_order lat count) (seq 0 count).
Proof.
  unfold completion_order. induction (seq 0 count) as [|i l IH]; cbn [foldr]; [done|].
  rewrite insert_by_perm. by constructor.
Qed.

Lemma completion_order_NoDup lat count : NoDup (completion_order lat count).
Proof. rewrite completion_order_perm. apply NoDup_seq. Qed.

Lemma completion_order_elem lat count i :
  i ∈ completion_order lat count <-> i < count.
Proof. rewrite completion_order_perm, elem_of_seq. lia. Qed.

Section DispatcherProperties.

Context {S J R : Type}.
Implicit Types (futures : list (option (pyres R))) (jobs : list J).

Lemma failure_surfaced_keeps futures futures' :
  keeps futures futures' -> failure_surfaced futures = true -> failure_surfaced futures' = true.
Proof.
  revert futures'. induction futures as [|f futures IH]; intros futures' Hk Hs; [discriminate|].
  destruct f as [[r|e]|]; cbn [failure_surfaced] in Hs; try discriminate.
  - pose proof (Hk 0 (Ok r) eq_refl) as H0.
    destruct futures' as [|f' futures']; [discriminate|]. injection H0 as ->.
    cbn [failure_surfaced]. apply IH; [|exact Hs].
    intros k r' Hl. exact (Hk (Datatypes.S k) r' Hl).
  - pose proof (Hk 0 (Raise e) eq_refl) as H0.
    destruct futures' as [|f' futures']; [discriminate|]. by injection H0 as ->.
Qed.

(** What the workers leave: the futures outside [order] are untouched, and a
    future of [order] stays empty only if a failure has surfaced. *)
Lemma complete_spec first_pending (func : J -> S -> pyres R * S) jobs order :
  forall futures s futures' s',
    NoDup order ->
    length futures = length jobs ->
    (forall i, i ∈ order -> futures !! i = Some None) ->
    complete first_pending func jobs order futures s = (futures', s') ->
    length futures' = length futures
    /\ (forall i, i ∉ order -> futures' !! i = futures !! i)
    /\ (forall i, i ∈ order -> futures' !! i = Some None -> failure_surfaced futures' = true).
Proof.
  induction order as [|i order IH]; intros futures s futures' s' Hnd Hlen Hempty H;
    cbn [complete] in H.
  - injection H as <- <-. split; [done|]. split; [done|]. intros i Hi. inversion Hi.
  - apply NoDup_cons in Hnd as [Hi Hnd].
    assert (futures !! i = Some None) as Hslot by (apply Hempty; left).
    destruct (failure_surfaced futures && Nat.leb first_pending i) eqn:Hcancel.
    + apply IH in H as (Hl & Hout & Hin); [|done|done|].
      2:{ intros k Hk. apply Hempty. by right. }
      split; [done|]. split.
      * intros k Hk. apply Hout. intros Hk'. apply Hk. by right.
      * intros k Hk Hnone. apply andb_true_iff in Hcancel as [Hs _].
        eapply failure_surfaced_keeps; [|exact Hs].
        intros k' r Hr. rewrite Hout; [done|].
        intros Hk'. rewrite Hempty in Hr by (by right). discriminate.
    + destruct (jobs !! i) as [j|] eqn:Hj.
      2:{ apply lookup_ge_None in Hj. apply lookup_lt_Some in Hslot. lia. }
      destruct (func j s) as [r s1] eqn:Hrun.
      apply IH in H as (Hl & Hout & Hin); [|done|by rewrite length_insert|].
      2:{ intros k Hk. rewrite list_lookup_insert_ne by (intros ->; done).
          apply Hempty. by right. }
      rewrite length_insert in Hl. split; [done|]. split.
      * intros k Hk. rewrite Hout by (intros Hk'; apply Hk; by right).
        apply list_lookup_insert_ne. intros ->. apply Hk. left.
      * intros k Hk Hnone. apply elem_of_cons in Hk as [->|Hk]; [|by apply (Hin k)].
        rewrite Hout in Hnone by done.
        rewrite list_lookup_insert_eq in Hnone by (eapply lookup_lt_Some; exact Hslot).
        discriminate.
Qed.

(** After a run, a future is empty only if a failure has surfaced. *)
Lemma run_futures_spec sched (func : J -> S -> pyres R * S) jobs s futures s' :
  run_futures sched func jobs s = (futures, s') ->
  length futures = length jobs
  /\ (failure_surfaced futures = true \/ Forall (fun f => f <> None) futures).
Proof.
  unfold run_futures. intros H.
  apply complete_spec in H as (Hl & _ & Hin).
  - rewrite length_replicate in Hl. split; [done|].
    destruct (failure_surfaced futures) eqn:Hs; [by left|right].
    apply Forall_lookup. intros i f Hf ->.
    assert (i < length jobs) as Hi by (apply lookup_lt_Some in Hf; lia).
    specialize (Hin i (proj2 (completion_order_elem _ _ _) Hi) Hf). congruence.
  - apply completion_order_NoDup.
  - apply length_replicate.
  - intros i Hi. apply completion_order_elem in Hi. by apply lookup_replicate_2.
Qed.

End DispatcherProperties.

Section DispatcherResults.

Context {S J R : Type}.
Implicit Types (futures : list (option (pyres R))) (jobs : list J).

(** Reading futures none of which is empty before a failure: either all the
    results, or the exception of the first future that raised. *)
Lemma result_iterator_cases futures :
  failure_surfaced futures = true \/ Forall (fun f => f <> None) futures ->
  match result_iterator futures with
  | Ok results => futures = map (fun r => Some (Ok r)) results
  | Raise e =>
      exists i, futures !! i = Some (Some (Raise e))
                /\ forall k, k < i -> exists r, futures !! k = Some (Some (Ok r))
  end.
Proof.
  induction futures as [|f futures IH]; intros H; [reflexivity|].
  destruct f as [[r|e]|]; cbn [result_iterator failure_surfaced] in *.
  - assert (failure_surfaced futures = true \/ Forall (fun f => f <> None) futures) as H'.
    { destruct H as [H|H]; [by left|right]. by apply Forall_cons in H as [_ H]. }
    specialize (IH H').
    destruct (result_iterator futures) as [results|e]; cbn [rbind].
    + rewrite IH. reflexivity.
    + destruct IH as (i & Hi & Hbefore). exists (Datatypes.S i). split; [exact Hi|].
      intros [|k] Hk; [by exists r|]. apply Hbefore. lia.
  - exists 0. split; [reflexivity|]. intros k Hk. lia.
  - destruct H as [H|H]; [discriminate|]. apply Forall_cons in H as [H _]. congruence.
Qed.

(** What [run_threaded] returns, in terms of the futures of the run. *)
Lemma run_threaded_outcome sched (func : J -> S -> pyres R * S) jobs s :
  let futures := fst (run_futures sched func jobs s) in
  match fst (run_threaded sched func jobs s) with
  | Ok results =>
      futures = map (fun r => Some (Ok r)) results /\ length results = length jobs
  | Raise e =>
      exists i, futures !! i = Some (Some (Raise e))
                /\ forall k, k < i -> exists r, futures !! k = Some (Some (Ok r))
  end.
Proof.
  unfold run_threaded. destruct (run_futures sched func jobs s) as [futures s'] eqn:Hrun.
  cbn [fst]. apply run_futures_spec in Hrun as [Hlen Hfull].
  apply result_iterator_cases in Hfull.
  destruct (result_iterator futures) as [results|e]; [|exact Hfull].
  split; [exact Hfull|]. rewrite Hfull, length_map in Hlen. done.
Qed.

Variable out : J -> pyres R.

Lemma complete_agrees first_pending (func : J -> S -> pyres R * S) jobs order :
  (forall j s, fst (func j s) = out j) ->
  forall futures s futures' s',
    agrees out futures jobs ->
    complete first_pending func jobs order futures s = (futures', s') ->
    agrees out futures' jobs.
Proof.
  intros Hout. induction order as [|i order IH]; intros futures s futures' s' Hagree H;
    cbn [complete] in H.
  - by injection H as <- <-.
  - destruct (failure_surfaced futures && Nat.leb first_pending i); [by eapply IH|].
    destruct (jobs !! i) as [j|] eqn:Hj; [|by eapply IH].
    destruct (func j s) as [r s1] eqn:Hrun.
    eapply IH; [|exact H].
    unfold agrees. rewrite <- (list_insert_id jobs i j Hj).
    apply Forall2_insert; [exact Hagree|]. right.
    rewrite <- (Hout j s), Hrun. reflexivity.
Qed.

Lemma result_iterator_agrees futures jobs :
  agrees out futures jobs ->
  failure_surfaced futures = true \/ Forall (fun f => f <> None) futures ->
  result_iterator futures = sequential_map out jobs.
Proof.
  induction 1 as [|f j futures jobs Hf _ IH]; intros H; [reflexivity|].
  destruct Hf as [->| ->].
  - destruct H as [H|H]; [discriminate|]. apply Forall_cons in H as [H _]. congruence.
  - cbn [result_iterator sequential_map failure_surfaced] in *.
    destruct (out j) as [r|e]; cbn [rbind]; [|reflexivity].
    rewrite IH; [reflexivity|].
    destruct H as [H|H]; [by left|right]. by apply Forall_cons in H as [_ H].
Qed.

(** C7. The dispatcher returns results in submission order whatever the
    completion order: for a job function whose outcome depends on the job
    alone, and under every schedule of the pool, run_threaded(func, jobs)
    returns what applying func to each job in order returns, the list of
    results or the first exception. *)
Theorem run_threaded_submission_order sched (func : J -> S -> pyres R * S) jobs s :
  (forall j s0, fst (func j s0) = out j) ->
  fst (run_threaded sched func jobs s) = sequential_map out jobs.
Proof.
  intros Hout. unfold run_threaded.
  destruct (run_futures sched func jobs s) as [futures s'] eqn:Hrun. cbn [fst].
  apply result_iterator_agrees.
  - unfold run_futures in Hrun. eapply complete_agrees; [exact Hout| |exact Hrun].
    unfold agrees. clear. induction jobs as [|j jobs IH]; constructor; [by left|exact IH].
  - by apply run_futures_spec in Hrun as [_ H].
Qed.

End DispatcherResults.

(** Five jobs that complete in reverse (the shared log records E first and
    A last) give their results as A to E. *)
Lemma run_threaded_submission_order_witness :
  snd (run_threaded reversed logged ["A"; "B"; "C"; "D"; "E"] []) = ["E"; "D"; "C"; "B"; "A"]
  /\ fst (run_threaded reversed logged ["A"; "B"; "C"; "D"; "E"] [])
     = sequential_map Ok ["A"; "B"; "C"; "D"; "E"].
Proof.
  split; [reflexivity|].
  apply (run_threaded_submission_order Ok reversed logged ["A"; "B"; "C"; "D"; "E"] []).
  intros j s0. reflexivity.
Defined.

(** ** Document pipeline *)

Section DocumentProperties.

Variable py_str : pyval -> string.
Variable partial_json_loads : string -> pyres pyval.
Variable chat_backend : nat -> request -> pyres (list choice).
Variable image_backend : nat -> string -> pyres string.
Variable resize_and_quantize : string -> pyres string.
Variable find_section : string -> pyres (option section_dom).
Variable section_text : section_dom -> string.
Variable fromstring : string -> pyres (option string * list element).
Variable serialize_chapter : string -> section_dom -> string.
Variable precis_prompt commentary_prompt annotation_prompt addition_prompt
  illustration_prompt : string.

Let document := process_epub_chapters py_str partial_json_loads chat_backend image_backend
  resize_and_quantize find_section section_text fromstring serialize_chapter
  precis_prompt commentary_prompt annotation_prompt addition_prompt illustration_prompt.

Let futures_of := chapter_futures py_str partial_json_loads chat_backend image_backend
  resize_and_quantize find_section section_text fromstring serialize_chapter
  precis_prompt commentary_prompt annotation_prompt addition_prompt illustration_prompt.

(** C6, amended.  The chapters of a document are the jobs of one pool, and a
    failure of one of them is not kept from the others: the chapter results
    are returned, one per chapter, only when every chapter was processed
    without error; when the processing of some chapter raises, run_threaded
    raises to process_epub the error of the first failing chapter in
    submission order and returns no result, the chapters submitted before
    that one having been processed to completion. *)
Theorem chapter_failure_surfaces sched pool title author chapter_paths w :
  match fst (document sched pool title author chapter_paths w) with
  | Ok results =>
      futures_of sched pool title author chapter_paths w = map (fun r => Some (Ok r)) results
      /\ length results = length chapter_paths
  | Raise e =>
      exists i,
        futures_of sched pool title author chapter_paths w !! i = Some (Some (Raise e))
        /\ forall k, k < i ->
             exists r, futures_of sched pool title author chapter_paths w !! k = Some (Some (Ok r))
  end.
Proof.
  unfold document, futures_of, process_epub_chapters, chapter_futures.
  pose proof (run_threaded_outcome sched
                (fun j => process_chapter py_str partial_json_loads chat_backend image_backend
                            resize_and_quantize find_section section_text fromstring
                            serialize_chapter precis_prompt commentary_prompt annotation_prompt
                            addition_prompt illustration_prompt (pool (job_chapter_path j)) j)
                (chapter_jobs title author chapter_paths) w) as H.
  cbv zeta in H. unfold chapter_jobs in *. rewrite length_map in H. exact H.
Qed.

End DocumentProperties.

(** C6, as stated, fails.  In a book of two chapters whose first chapter
    meets a failing request, the second chapter is processed without error,
    yet the document run raises and returns no result; in a book of eleven
    chapters of which ten had been picked up by workers when that failure
    surfaced, the eleventh chapter is cancelled and its file stays as it was
    unpacked. *)
Lemma chapter_failure_counterexample :
  (exists r,
      demo_chapter_futures flaky_chat (in_order 2) [chapter 1; chapter 2] (unpacked 2)
      = [Some (Raise RemoteCallError); Some (Ok r)])
  /\ fst (demo_process_epub_chapters flaky_chat (in_order 2) [chapter 1; chapter 2] (unpacked 2))
     = Raise RemoteCallError
  /\ demo_chapter_futures flaky_chat {| latency := fun _ => 0; started := 10 |}
       (map chapter (seq 1 11)) (unpacked 11) !! 10 = Some None
  /\ files (snd (demo_process_epub_chapters flaky_chat {| latency := fun _ => 0; started := 10 |}
                   (map chapter (seq 1 11)) (unpacked 11))) !! chapter_file (chapter 11)
     = Some chapter_source.
Proof.
  split; [eexists; vm_compute; reflexivity|].
  split; [vm_compute; reflexivity|].
  split; vm_compute; reflexivity.
Qed.

(** ** Re-running a chapter *)

Lemma cached_hit {A} (func : A -> M pyval) key args w v :
  key <> EmptyString ->
  cache_db w !! key = Some v ->
  truthy v = true ->
  cached func (Some key) args w = (Ok v, w).
Proof.
  intros Hkey Hv Ht. unfold cached, key_given.
  apply String.eqb_neq in Hkey. rewrite Hkey.
  unfold mbind, get_cache. rewrite Hv. cbn [from_option id]. rewrite Ht. reflexivity.
Qed.

(** A stored value that is empty, zero or None is not served: the function
    runs again and its new result replaces the stored one. *)
Lemma cached_falsy_entry {A} (func : A -> M pyval) key args w v :
  key <> EmptyString ->
  cache_db w !! key = Some v ->
  truthy v = false ->
  cached func (Some key) args w
  = (do out <- func args; do _ <- store_cache key out; mret out) w.
Proof.
  intros Hkey Hv Ht. unfold cached, key_given.
  apply String.eqb_neq in Hkey. rewrite Hkey.
  unfold mbind at 1. unfold get_cache. rewrite Hv. cbn [from_option id]. rewrite Ht. reflexivity.
Qed.

(** A call with a key that returned a non-empty result leaves that result
    on the shelf. *)
Lemma cached_leaves_entry {A} (func : A -> M pyval) key args w v w' :
  key <> EmptyString ->
  cached func (Some key) args w = (Ok v, w') ->
  truthy v = true ->
  cache_db w' !! key = Some v.
Proof.
  intros Hkey Hrun Ht. unfold cached, key_given in Hrun.
  apply String.eqb_neq in Hkey. rewrite Hkey in Hrun.
  unfold mbind at 1 in Hrun. unfold get_cache in Hrun.
  destruct (cache_db w !! key) as [hit|] eqn:Hhit; cbn [from_option id] in Hrun.
  - destruct (truthy hit) eqn:Hth.
    + injection Hrun as <- <-. exact Hhit.
    + unfold mbind, store_cache, mret in Hrun.
      destruct (func args w) as [[out|e] w1] eqn:Hf; [|discriminate].
      injection Hrun as <- <-. cbn [cache_db]. apply lookup_insert_eq.
  - cbn [truthy] in Hrun.
    unfold mbind, store_cache, mret in Hrun.
    destruct (func args w) as [[out|e] w1] eqn:Hf; [|discriminate].
    injection Hrun as <- <-. cbn [cache_db]. apply lookup_insert_eq.
Qed.

(** Repeating such a call, with whatever function and arguments under the
    same key, serves the stored result: the function is not run and the
    world stays as it is. *)
Lemma cached_repeat {A B} (func : A -> M pyval) (func' : B -> M pyval) key args args' w v w' :
  key <> EmptyString ->
  cached func (Some key) args w = (Ok v, w') ->
  truthy v = true ->
  cached func' (Some key) args' w' = (Ok v, w').
Proof.
  intros Hkey Hrun Ht. apply cached_hit; [done| |done].
  by eapply cached_leaves_entry.
Qed.

(** C2, evaluated.  A chapter whose annotation request was answered with an
    empty list: the empty list is stored, and is not served on the second
    run, which starts from the shelf the first run left and from the
    chapter file as unpacked; the request is issued again (six requests
    instead of five), and the new answer gives another markup. *)
Theorem rerun_repeats_empty_results :
  let first := demo_process_chapter demo_chat (demo_job 1) (unpacked 1) in
  let again :=
    demo_process_chapter demo_chat (demo_job 1)
      (restore (chapter 1) chapter_source (snd first)) in
  cache_db (snd first) !! "annotation19_chapter-1" = Some (PList [])
  /\ chat_calls (snd first) = 5
  /\ chat_calls (snd again) = 6
  /\ exists markup markup',
       files (snd first) !! chapter_file (chapter 1) = Some markup
       /\ files (snd again) !! chapter_file (chapter 1) = Some markup'
       /\ String.eqb markup markup' = false.
Proof.
  cbv zeta. split; [vm_compute; reflexivity|].
  split; [vm_compute; reflexivity|].
  split; [vm_compute; reflexivity|].
  eexists _, _. split; [vm_compute; reflexivity|].
  split; [vm_compute; reflexivity|]. vm_compute. reflexivity.
Qed.

(** ** Illustration placement *)

(** Induction on elements, with the hypothesis for all children. *)
Lemma element_children_ind (P : element -> Prop) :
  (forall tag attrib text children tail,
      Forall P children -> P (Element tag attrib text children tail)) ->
  forall e, P e.
Proof.
  intros H. fix IH 1. intros [tag attrib text children tail]. apply H.
  induction children as [|c children IHc]; constructor; [apply IH|exact IHc].
Qed.

Lemma element_at_cons i rest forest c :
  forest !! i = Some c -> element_at (i :: rest) forest = below rest c.
Proof.
  intros Hc. destruct rest as [|r rest]; cbn [element_at below]; rewrite Hc; [done|].
  by destruct c.
Qed.

Lemma paths_from_elem {A} (sel : A -> list (list nat)) l : forall i path,
  path ∈ paths_from sel i l ->
  exists k a rest, path = (i + k) :: rest /\ l !! k = Some a /\ rest ∈ sel a.
Proof.
  induction l as [|a l IH]; intros i path Hp; cbn [paths_from] in Hp; [inversion Hp|].
  apply elem_of_app in Hp as [Hp|Hp].
  - apply list_elem_of_fmap in Hp as (rest & -> & Hrest).
    exists 0, a, rest. rewrite Nat.add_0_r. done.
  - apply IH in Hp as (k & a' & rest & -> & Hl & Hrest).
    exists (Datatypes.S k), a', rest. split; [f_equal; lia|done].
Qed.

(** A selected position holds an element of the selected tag. *)
Lemma select_in_below name e : forall path,
  path ∈ select_in name e -> exists e', below path e = Some e' /\ etag e' = name.
Proof.
  induction e as [tag attrib text children tail IH] using element_children_ind.
  intros path Hp. cbn [select_in] in Hp. apply elem_of_app in Hp as [Hp|Hp].
  - destruct (String.eqb tag name) eqn:E; [|inversion Hp].
    apply list_elem_of_singleton in Hp as ->. apply String.eqb_eq in E.
    by eexists.
  - apply paths_from_elem in Hp as (k & c & rest & -> & Hc & Hrest).
    rewrite Forall_lookup in IH. destruct (IH k c Hc rest Hrest) as (e' & He' & Htag).
    exists e'. split; [|done]. cbn [below Nat.add]. by rewrite (element_at_cons k rest children c Hc).
Qed.

Lemma select_element_at name section path :
  path ∈ select name section ->
  exists e, element_at path (sec_children section) = Some e /\ etag e = name.
Proof.
  unfold select. intros Hp.
  apply paths_from_elem in Hp as (k & c & rest & -> & Hc & Hrest).
  destruct (select_in_below name c rest Hrest) as (e & He & Htag).
  exists e. split; [|done]. cbn [Nat.add]. by rewrite (element_at_cons _ rest _ c Hc).
Qed.

(** [after] at a position that holds an element: the element keeps its
    place, its tail extended, and the new elements are its next siblings. *)
Lemma after_path_spec root_text root : forall path forest e,
  element_at path forest = Some e ->
  element_at path (after_path path root_text root forest) = Some (add_tail e root_text)
  /\ forall k, k < length root ->
       element_at (shift_last (Datatypes.S k) path) (after_path path root_text root forest)
       = root !! k.
Proof.
  induction path as [|i path IH]; intros forest e He; [discriminate|].
  destruct path as [|r path].
  - cbn [element_at after_path shift_last] in *. rewrite He.
    assert (i < length forest) as Hi by (eapply lookup_lt_Some; exact He).
    assert (length (take i forest) = i) as Hlen by (rewrite length_take; lia).
    split.
    + rewrite lookup_app_r by lia. rewrite Hlen, Nat.sub_diag. reflexivity.
    + intros k Hk. rewrite lookup_app_r by lia.
      replace (i + Datatypes.S k - length (take i forest)) with (Datatypes.S k) by lia.
      rewrite lookup_cons. by rewrite lookup_app_l.
  - cbn [element_at] in He. destruct (forest !! i) as [[tag attrib text children tail]|] eqn:Hc;
      [|discriminate].
    destruct (IH children e He) as [Hat Hsib].
    assert (i < length forest) as Hi by (eapply lookup_lt_Some; exact Hc).
    change (after_path (i :: r :: path) root_text root forest)
      with (match forest !! i with
            | Some (Element tag attrib text children tail) =>
                <[i := Element tag attrib text
                         (after_path (r :: path) root_text root children) tail]> forest
            | None => forest
            end).
    rewrite Hc. split.
    + change (element_at (i :: r :: path) ?f)
        with (match f !! i with
              | Some (Element _ _ _ children _) => element_at (r :: path) children
              | None => None
              end).
      rewrite list_lookup_insert_eq by done. exact Hat.
    + intros k Hk.
      change (shift_last (Datatypes.S k) (i :: r :: path))
        with (i :: shift_last (Datatypes.S k) (r :: path)).
      rewrite (element_at_cons i _ _ _ (list_lookup_insert_eq _ _ _ Hi)).
      specialize (Hsib k Hk).
      destruct (shift_last (Datatypes.S k) (r :: path)) eqn:Hs; [|exact Hsib].
      destruct path; discriminate.
Qed.

Lemma append_assoc (a b c : string) : (a +:+ b) +:+ c = a +:+ b +:+ c.
Proof.
  induction a as [|x a IH]; [reflexivity|].
  change (String x ((a +:+ b) +:+ c) = String x (a +:+ b +:+ c)). by rewrite IH.
Qed.

(** The caption stands in the block as given, between the tags of an
    emphasised paragraph. *)
Lemma illustration_box_caption whitespace image_name caption :
  exists before behind,
    illustration_box whitespace image_name caption
    = before +:+ "<p><em>" +:+ caption +:+ "</em></p>" +:+ behind.
Proof.
  exists (whitespace +:+ "<div class=" +:+ dq +:+ "ai-illustration annotation-box" +:+ dq +:+ ">"
          +:+ whitespace +:+ "<img src=" +:+ dq +:+ "../images/" +:+ image_name +:+ dq +:+ "/>"
          +:+ whitespace),
         (whitespace +:+ "</div>").
  unfold illustration_box. rewrite !append_assoc. reflexivity.
Qed.

(** No paragraph: line 304 raises. *)
Lemma place_illustration_no_paragraph py_str fromstring whitespace image_name illustration
    section :
  select "p" section = [] ->
  place_illustration py_str fromstring whitespace image_name illustration section
  = Raise IndexError.
Proof. unfold place_illustration. by intros ->. Qed.

(** C9. The illustration block goes right behind the middle paragraph, the
    one at index n // 2 of the n paragraphs of the section in document
    order: that paragraph keeps its place, the elements of the block are its
    next siblings, and the block is parsed from markup that carries the
    anchor sentence of the illustration verbatim as its caption. *)
Theorem illustration_after_middle_paragraph py_str fromstring whitespace image_name
    illustration section sentence text block :
  0 < length (select "p" section) ->
  py_getitem illustration "existing_sentence" = Ok sentence ->
  fromstring (illustration_box whitespace image_name (fmt py_str sentence)) = Ok (text, block) ->
  exists middle paragraph section',
    select "p" section !! (length (select "p" section) / 2) = Some middle
    /\ element_at middle (sec_children section) = Some paragraph
    /\ etag paragraph = "p"
    /\ place_illustration py_str fromstring whitespace image_name illustration section
       = Ok section'
    /\ element_at middle (sec_children section')
       = Some (add_tail paragraph (default EmptyString text))
    /\ (forall k, k < length block ->
          element_at (shift_last (Datatypes.S k) middle) (sec_children section') = block !! k)
    /\ exists before behind,
         illustration_box whitespace image_name (fmt py_str sentence)
         = before +:+ "<p><em>" +:+ fmt py_str sentence +:+ "</em></p>" +:+ behind.
Proof.
  intros Hn Hsentence Hparse.
  assert (length (select "p" section) / 2 < length (select "p" section)) as Hlt
    by (apply Nat.div_lt; lia).
  apply lookup_lt_is_Some_2 in Hlt as [middle Hmiddle].
  destruct (select_element_at "p" section middle) as (paragraph & Hat & Htag).
  { eapply list_elem_of_lookup_2. exact Hmiddle. }
  destruct (after_path_spec (default EmptyString text) block middle (sec_children section)
              paragraph Hat) as [Hkeep Hnext].
  eexists middle, paragraph, _.
  split; [exact Hmiddle|]. split; [exact Hat|]. split; [exact Htag|].
  split.
  { unfold place_illustration. rewrite Hmiddle, Hsentence. cbn [rbind].
    unfold pq_after. rewrite Hparse. cbn [rbind fst snd]. reflexivity. }
  cbn [sec_children].
  split; [exact Hkeep|]. split; [exact Hnext|].
  apply illustration_box_caption.
Qed.

(** Seven paragraphs: the block goes behind the paragraph at index 3 of the
    selection, the second of the block quote. *)
Lemma illustration_after_middle_paragraph_witness :
  length (select "p" seven_paragraphs) = 7
  /\ select "p" seven_paragraphs !! 3 = Some [3; 1]
  /\ exists middle paragraph section',
       select "p" seven_paragraphs !! (length (select "p" seven_paragraphs) / 2) = Some middle
       /\ element_at middle (sec_children seven_paragraphs) = Some paragraph
       /\ etag paragraph = "p"
       /\ place_illustration no_repr demo_fromstring EmptyString "illustration_chapter-1.png"
            (PDict [("existing_sentence", PStr "Four."); ("image_description", PStr "A cat")])
            seven_paragraphs
          = Ok section'
       /\ element_at middle (sec_children section')
          = Some (add_tail paragraph (default EmptyString None))
       /\ (forall k,
             k < length [Element "p" []
                           (illustration_box EmptyString "illustration_chapter-1.png" "Four.")
                           [] EmptyString] ->
             element_at (shift_last (Datatypes.S k) middle) (sec_children section')
             = [Element "p" []
                  (illustration_box EmptyString "illustration_chapter-1.png" "Four.")
                  [] EmptyString] !! k)
       /\ exists before behind,
            illustration_box EmptyString "illustration_chapter-1.png" "Four."
            = before +:+ "<p><em>" +:+ "Four." +:+ "</em></p>" +:+ behind.
Proof.
  split; [reflexivity|]. split; [reflexivity|].
  apply (illustration_after_middle_paragraph no_repr demo_fromstring EmptyString
           "illustration_chapter-1.png"
           (PDict [("existing_sentence", PStr "Four."); ("image_description", PStr "A cat")])
           seven_paragraphs (PStr "Four.") None
           [Element "p" [] (illustration_box EmptyString "illustration_chapter-1.png" "Four.")
              [] EmptyString]).
  - vm_compute. lia.
  - reflexivity.
  - reflexivity.
Defined.

(** ** Re-running a chapter whose results are all non-empty *)

Lemma mbind_run {A B} (c : M A) (k : A -> M B) w a u :
  c w = (Ok a, u) -> mbind c k w = k a u.
Proof. unfold mbind. by intros ->. Qed.

Lemma mbind_ok {A B} (c : M A) (k : A -> M B) w b w' :
  mbind c k w = (Ok b, w') -> exists a u, c w = (Ok a, u) /\ k a u = (Ok b, w').
Proof.
  unfold mbind. destruct (c w) as [[a|e] u]; intros H; [eauto|discriminate].
Qed.

Lemma lift_ok {A} (r : pyres A) w a u : lift r w = (Ok a, u) -> r = Ok a /\ u = w.
Proof. unfold lift. intros [= -> ->]. done. Qed.

Lemma extends_refl w : extends w w.
Proof. by intros k v. Qed.

Lemma extends_trans w1 w2 w3 : extends w1 w2 -> extends w2 w3 -> extends w1 w3.
Proof. intros H12 H23 k v Hk. by apply H23, H12. Qed.

Lemma recorded_extends key r w w' : extends w w' -> recorded key r w -> recorded key r w'.
Proof. intros Hext. destruct r; cbn [recorded]; [apply Hext|done]. Qed.

(** A cached call on a shelf without empty values, of a function that
    leaves the shelf alone and returns no empty value: the shelf only grows,
    still has no empty value, and holds the result under the key. *)
Lemma cached_records {A} (func : A -> M pyval) key args w r w' :
  key <> EmptyString ->
  (forall a w0, cache_db (snd (func a w0)) = cache_db w0) ->
  (forall a w0 v, fst (func a w0) = Ok v -> truthy v = true) ->
  shelf_truthy w ->
  cached func (Some key) args w = (r, w') ->
  shelf_truthy w' /\ extends w w' /\ recorded key r w'.
Proof.
  intros Hkey Hframe Htruthy Hshelf Hrun. unfold cached, key_given in Hrun.
  apply String.eqb_neq in Hkey. rewrite Hkey in Hrun. apply String.eqb_neq in Hkey.
  unfold mbind at 1 in Hrun. unfold get_cache in Hrun.
  destruct (cache_db w !! key) as [hit|] eqn:Hhit; cbn [from_option id] in Hrun.
  { rewrite (Hshelf key hit Hhit) in Hrun. injection Hrun as <- <-.
    split; [done|]. split; [apply extends_refl|exact Hhit]. }
  cbn [truthy] in Hrun. unfold mbind, store_cache, mret in Hrun.
  pose proof (Hframe args w) as Hf. pose proof (Htruthy args w) as Ht.
  destruct (func args w) as [[out|e] w1]; cbn [fst snd] in *.
  - injection Hrun as <- <-. cbn [recorded cache_db]. repeat split.
    + intros k v. cbn [cache_db]. rewrite lookup_insert. case_decide as Hk.
      * intros [= <-]. by apply Ht.
      * rewrite Hf. apply Hshelf.
    + intros k v Hk. cbn [cache_db]. rewrite lookup_insert_ne; [by rewrite Hf|].
      intros ->. congruence.
    + apply lookup_insert_eq.
  - injection Hrun as <- <-. cbn [recorded]. repeat split.
    + intros k v. rewrite Hf. apply Hshelf.
    + intros k v. by rewrite Hf.
Qed.

Section PoolInvariant.

Context {J R : Type}.
Variable func : J -> world -> pyres R * world.
Variable holds : J -> pyres R -> world -> Prop.

Hypothesis holds_extends : forall j r w w', extends w w' -> holds j r w -> holds j r w'.

Hypothesis step :
  forall j w r w',
    shelf_truthy w -> func j w = (r, w') ->
    shelf_truthy w' /\ extends w w' /\ holds j r w'.

(** What each job leaves about its result holds of the world the pool
    leaves. *)
Lemma complete_holds first_pending jobs order : forall futures w futures' w',
  shelf_truthy w ->
  (forall i r, futures !! i = Some (Some r) -> exists j, jobs !! i = Some j /\ holds j r w) ->
  complete first_pending func jobs order futures w = (futures', w') ->
  shelf_truthy w' /\ extends w w'
  /\ forall i r, futures' !! i = Some (Some r) -> exists j, jobs !! i = Some j /\ holds j r w'.
Proof.
  induction order as [|i order IH]; intros futures w futures' w' Hshelf Hdone H;
    cbn [complete] in H.
  - injection H as <- <-. split; [done|]. split; [apply extends_refl|done].
  - destruct (failure_surfaced futures && Nat.leb first_pending i); [by eapply IH|].
    destruct (jobs !! i) as [j|] eqn:Hj; [|by eapply IH].
    destruct (func j w) as [r w1] eqn:Hrun.
    destruct (step j w r w1 Hshelf Hrun) as (Hshelf1 & Hext1 & Hholds).
    apply IH in H as (Hshelf' & Hext' & Hdone'); [| exact Hshelf1 |].
    + split; [done|]. split; [by eapply extends_trans|done].
    + intros k r' Hk. destruct (decide (k = i)) as [->|Hne].
      * assert (i < length futures) as Hi.
        { apply lookup_lt_Some in Hk. by rewrite length_insert in Hk. }
        rewrite list_lookup_insert_eq in Hk by done. injection Hk as <-. eauto.
      * rewrite list_lookup_insert_ne in Hk by done.
        destruct (Hdone k r' Hk) as (j' & Hj' & Hh). exists j'. split; [done|].
        by eapply holds_extends.
Qed.

Lemma run_threaded_holds sched jobs w results w' :
  shelf_truthy w ->
  run_threaded sched func jobs w = (Ok results, w') ->
  shelf_truthy w' /\ extends w w'
  /\ Forall2 (fun j r => holds j (Ok r) w') jobs results.
Proof.
  intros Hshelf Hrun.
  pose proof (run_threaded_outcome sched func jobs w) as Hout. cbv zeta in Hout.
  unfold run_threaded in *. destruct (run_futures sched func jobs w) as [futures u] eqn:Hf.
  injection Hrun as Hres <-. cbn [fst] in Hout. rewrite Hres in Hout.
  destruct Hout as [-> Hlen].
  unfold run_futures in Hf. apply complete_holds in Hf as (Hshelf' & Hext & Hdone);
    [|exact Hshelf|].
  2:{ intros i r Hi. apply lookup_replicate in Hi as [? _]. discriminate. }
  split; [done|]. split; [done|].
  apply Forall2_same_length_lookup. split; [done|].
  intros i j r Hj Hr.
  destruct (Hdone i (Ok r)) as (j' & Hj' & Hh).
  { rewrite list_lookup_fmap, Hr. reflexivity. }
  congruence.
Qed.

End PoolInvariant.

(** Jobs that each return at once in the world [w], leaving it as it is:
    the pool returns their results and leaves [w] as it is. *)
Lemma complete_fixed {J R} (func : J -> world -> pyres R * world) (out : J -> pyres R)
    first_pending jobs w order : forall futures futures' w',
  (forall i j, jobs !! i = Some j -> func j w = (out j, w)) ->
  agrees out futures jobs ->
  complete first_pending func jobs order futures w = (futures', w') ->
  w' = w /\ agrees out futures' jobs.
Proof.
  induction order as [|i order IH]; intros futures futures' w' Hfix Hagree H;
    cbn [complete] in H.
  - by injection H as <- <-.
  - destruct (failure_surfaced futures && Nat.leb first_pending i); [by eapply IH|].
    destruct (jobs !! i) as [j|] eqn:Hj; [|by eapply IH].
    rewrite (Hfix i j Hj) in H. eapply IH; [exact Hfix| |exact H].
    unfold agrees. rewrite <- (list_insert_id jobs i j Hj).
    apply Forall2_insert; [exact Hagree|]. by right.
Qed.

Lemma run_threaded_fixed {J R} (func : J -> world -> pyres R * world) (out : J -> pyres R)
    sched jobs w :
  (forall i j, jobs !! i = Some j -> func j w = (out j, w)) ->
  run_threaded sched func jobs w = (sequential_map out jobs, w).
Proof.
  intros Hfix. unfold run_threaded.
  destruct (run_futures sched func jobs w) as [futures w'] eqn:Hrun.
  pose proof (run_futures_spec sched func jobs w futures w' Hrun) as [_ Hfull].
  unfold run_futures in Hrun. apply (complete_fixed func out) in Hrun as [-> Hagree].
  - f_equal. by apply result_iterator_agrees.
  - exact Hfix.
  - unfold agrees. clear. induction jobs as [|j jobs IH]; constructor; [by left|exact IH].
Qed.

Lemma append_nonempty_r (a b : string) : b <> EmptyString -> a +:+ b <> EmptyString.
Proof. destruct a; [done|discriminate]. Qed.

Tactic Notation "m_ok" hyp(H) "as" ident(a) ident(u) ident(Ha) :=
  apply mbind_ok in H; destruct H as (a & u & Ha & H).

Tactic Notation "lift_ok" hyp(H) "as" ident(a) ident(Ha) :=
  let u := fresh "u" in
  apply mbind_ok in H; destruct H as (a & u & Ha & H);
  apply lift_ok in Ha; destruct Ha as [Ha ->].

Section Rerun.

Variable py_str : pyval -> string.
Variable partial_json_loads : string -> pyres pyval.
Variable chat_backend : nat -> request -> pyres (list choice).
Variable image_backend : nat -> string -> pyres string.
Variable resize_and_quantize : string -> pyres string.
Variable find_section : string -> pyres (option section_dom).
Variable section_text : section_dom -> string.
Variable fromstring : string -> pyres (option string * list element).
Variable serialize_chapter : string -> section_dom -> string.
Variable precis_prompt commentary_prompt annotation_prompt addition_prompt
  illustration_prompt : string.

(** No remote call and no compression returns an empty value. *)
Hypothesis completions_truthy :
  forall kw w v,
    fst (get_completion_text partial_json_loads chat_backend kw w) = Ok v -> truthy v = true.
Hypothesis images_truthy :
  forall image_prompt w v,
    fst (get_image image_backend image_prompt w) = Ok v -> truthy v = true.
Hypothesis compressed_truthy :
  forall data w v,
    fst (compress_image resize_and_quantize data w) = Ok v -> truthy v = true.

Let completion := cached_completion partial_json_loads chat_backend.

Let merge' := merge py_str image_backend resize_and_quantize fromstring serialize_chapter.

Let chapter' := process_chapter py_str partial_json_loads chat_backend image_backend
  resize_and_quantize find_section section_text fromstring serialize_chapter
  precis_prompt commentary_prompt annotation_prompt addition_prompt illustration_prompt.

Lemma completion_step j w r w' :
  shelf_truthy w -> completion j w = (r, w') ->
  shelf_truthy w' /\ extends w w' /\ on_shelf j r w'.
Proof.
  intros Hshelf Hrun. unfold completion, cached_completion, on_shelf in *.
  destruct (job_cache_key j) as [key|] eqn:Hkey; cbn [key_given].
  - destruct (String.eqb key EmptyString) eqn:E.
    + apply String.eqb_eq in E. subst key.
      rewrite cached_without_key in Hrun by reflexivity.
      pose proof (get_completion_text_cache partial_json_loads chat_backend (job_request j) w)
        as Hc.
      rewrite Hrun in Hc. cbn [snd] in Hc.
      split; [|split; [|done]]; intros k v; by rewrite Hc; try apply Hshelf.
    + apply String.eqb_neq in E.
      eapply cached_records; [exact E| | |exact Hshelf|exact Hrun].
      * intros a w0. apply get_completion_text_cache.
      * exact completions_truthy.
  - rewrite cached_without_key in Hrun by reflexivity.
    pose proof (get_completion_text_cache partial_json_loads chat_backend (job_request j) w)
      as Hc.
    rewrite Hrun in Hc. cbn [snd] in Hc.
    split; [|split; [|done]]; intros k v; by rewrite Hc; try apply Hshelf.
Qed.

Lemma on_shelf_extends j r w w' : extends w w' -> on_shelf j r w -> on_shelf j r w'.
Proof.
  unfold on_shelf. intros Hext. destruct (key_given (job_cache_key j)); [|done].
  by apply recorded_extends.
Qed.

(** A job whose result is on a shelf without empty values is served from
    that shelf. *)
Lemma completion_served j v w :
  shelf_truthy w -> is_Some (key_given (job_cache_key j)) -> on_shelf j (Ok v) w ->
  completion j w = (Ok v, w).
Proof.
  intros Hshelf [key Hkey] Hon. unfold on_shelf in Hon. rewrite Hkey in Hon.
  cbn [recorded] in Hon. unfold completion, cached_completion.
  destruct (job_cache_key j) as [key'|]; [|discriminate]. cbn [key_given] in Hkey.
  destruct (String.eqb key' EmptyString) eqn:E; [discriminate|]. injection Hkey as ->.
  apply String.eqb_neq in E. apply cached_hit; [done|done|]. by eapply Hshelf.
Qed.

Lemma prompts_keys c title author text :
  Forall (fun j => is_Some (key_given (job_cache_key j)))
    (prompts precis_prompt commentary_prompt annotation_prompt addition_prompt
       illustration_prompt c title author text).
Proof. unfold prompts. repeat constructor; eexists; reflexivity. Qed.

Lemma run_threaded_served {J R} (func : J -> world -> pyres R * world) sched jobs results w :
  Forall2 (fun j v => func j w = (Ok v, w)) jobs results ->
  run_threaded sched func jobs w = (Ok results, w).
Proof.
  intros Hserved.
  rewrite (run_threaded_fixed func (fun j => fst (func j w)) sched jobs w).
  - f_equal. induction Hserved as [|j v jobs results Hj _ IH]; [reflexivity|].
    cbn [sequential_map]. rewrite Hj. cbn [fst rbind]. rewrite IH. reflexivity.
  - intros i j Hi. destruct (Forall2_lookup_l _ _ _ i j Hserved Hi) as (v & _ & ->).
    reflexivity.
Qed.

(** The merge, run again on the shelf it left: the same result and the same
    markup, and no call to the image service. *)
Lemma merge_rerun c chapter_xml xml whitespace section v1 v2 v3 v4 v5 w r w1 :
  shelf_truthy w ->
  merge' c chapter_xml xml whitespace section v1 v2 v3 v4 v5 w = (Ok r, w1) ->
  shelf_truthy w1 /\ extends w w1
  /\ exists markup,
       files w1 !! chapter_file c = Some markup
       /\ forall w2,
            cache_db w2 = cache_db w1 ->
            exists w3,
              merge' c chapter_xml xml whitespace section v1 v2 v3 v4 v5 w2 = (Ok r, w3)
              /\ cache_db w3 = cache_db w2
              /\ chat_calls w3 = chat_calls w2
              /\ image_calls w3 = image_calls w2
              /\ files w3 !! chapter_file c = Some markup.
Proof.
  intros Hshelf H. unfold merge', merge in H.
  lift_ok H as merged Hmerged. lift_ok H as section1 Hhtml. lift_ok H as section2 Happend.
  lift_ok H as description Hdescription.
  m_ok H as data wb Himage.
  m_ok H as compressed wc Hcompress.
  m_ok H as written wd Hwrite.
  lift_ok H as section3 Hillustration. lift_ok H as section4 Hsummary.
  lift_ok H as section5 Hcommentary.
  m_ok H as written' we Hfile.
  set (image_key := fmt py_str description +:+ style_suffix) in *.
  assert (image_key <> EmptyString) as Hkey by (by apply append_nonempty_r).
  assert (image_key +:+ "compressed4" <> EmptyString) as Hkey' by (by apply append_nonempty_r).
  destruct (cached_records _ _ _ _ _ _ Hkey (get_image_cache image_backend) images_truthy
              Hshelf Himage) as (Hshelf_b & Hext_b & Hrec_b).
  destruct (cached_records _ _ _ _ _ _ Hkey' (compress_image_cache resize_and_quantize)
              compressed_truthy Hshelf_b Hcompress) as (Hshelf_c & Hext_c & Hrec_c).
  cbn [recorded] in Hrec_b, Hrec_c. apply Hext_c in Hrec_b.
  destruct compressed as [| | | |bytes| |]; try discriminate.
  unfold write_bytes, write_file in Hwrite, Hfile. injection Hwrite as <- <-.
  injection Hfile as <- <-. unfold mret in H. injection H as <- <-.
  cbn [cache_db files].
  split; [exact Hshelf_c|]. split.
  { intros k v Hk. cbn [cache_db]. by apply Hext_c, Hext_b. }
  eexists. split; [apply lookup_insert_eq|].
  intros w2 Hcache. cbn [cache_db] in Hcache.
  assert (cached (get_image image_backend) (Some image_key) image_key w2 = (Ok data, w2))
    as Himage2.
  { apply cached_hit; [done|by rewrite Hcache|]. by eapply Hshelf_c. }
  assert (cached (compress_image resize_and_quantize) (Some (image_key +:+ "compressed4"))
            data w2 = (Ok (PBytes bytes), w2)) as Hcompress2.
  { apply cached_hit; [done|by rewrite Hcache|]. by eapply Hshelf_c. }
  eexists. unfold merge', merge. split.
  { rewrite (mbind_run _ _ w2 _ w2) by (unfold lift; rewrite Hmerged; reflexivity).
    rewrite (mbind_run _ _ w2 _ w2) by (unfold lift; rewrite Hhtml; reflexivity).
    rewrite (mbind_run _ _ w2 _ w2) by (unfold lift; rewrite Happend; reflexivity).
    rewrite (mbind_run _ _ w2 _ w2) by (unfold lift; rewrite Hdescription; reflexivity).
    fold image_key.
    rewrite (mbind_run _ _ w2 _ w2 Himage2).
    rewrite (mbind_run _ _ w2 _ w2 Hcompress2).
    rewrite (mbind_run (write_bytes (illustration_file c) (PBytes bytes)) _ w2 tt _ eq_refl).
    rewrite (mbind_run _ _ _ _ _) by (unfold lift; rewrite Hillustration; reflexivity).
    rewrite (mbind_run _ _ _ _ _) by (unfold lift; rewrite Hsummary; reflexivity).
    rewrite (mbind_run _ _ _ _ _) by (unfold lift; rewrite Hcommentary; reflexivity).
    rewrite (mbind_run (write_file (chapter_file c) _) _ _ tt _ eq_refl).
    reflexivity. }
  cbn [cache_db chat_calls image_calls files].
  repeat split. apply lookup_insert_eq.
Qed.

(** X1. Idempotence where it holds.  On a shelf without empty values and
    with services that return none, a chapter that was processed is
    processed again from the shelf alone: run on the shelf the first run
    left and on the chapter file as it was, the pipeline returns the same
    result and writes the same markup, under any schedule, and issues no
    remote call. *)
Theorem rerun_without_empty_results sched sched' job source w r w1 :
  shelf_truthy w ->
  files w !! chapter_file (job_chapter_path job) = Some source ->
  chapter' sched job w = (Ok r, w1) ->
  exists w2,
    chapter' sched' job (restore (job_chapter_path job) source w1) = (Ok r, w2)
    /\ chat_calls w2 = chat_calls w1
    /\ image_calls w2 = image_calls w1
    /\ cache_db w2 = cache_db w1
    /\ files w2 !! chapter_file (job_chapter_path job)
       = files w1 !! chapter_file (job_chapter_path job).
Proof.
  intros Hshelf Hsource H. unfold chapter', process_chapter in H.
  m_ok H as chapter_xml u Hread. unfold read_file in Hread. rewrite Hsource in Hread.
  injection Hread as <- <-.
  lift_ok H as found Hfound.
  set (c := job_chapter_path job) in *.
  assert (read_file (chapter_file c) (restore c source w1) = (Ok source, restore c source w1))
    as Hread'.
  { unfold read_file, restore. cbn [files]. by rewrite lookup_insert_eq. }
  destruct found as [section|].
  - lift_ok H as xml Hxml. lift_ok H as whitespace Hwhitespace.
    m_ok H as results wa Hpool.
    destruct results as [|v1 [|v2 [|v3 [|v4 [|v5 [|]]]]]]; try discriminate.
    destruct (run_threaded_holds completion on_shelf on_shelf_extends completion_step
                sched _ w _ wa Hshelf Hpool) as (Hshelf_a & Hext_a & Hon).
    destruct (merge_rerun _ _ _ _ _ _ _ _ _ _ _ _ _ Hshelf_a H)
      as (Hshelf_1 & Hext_1 & markup & Hmarkup & Hagain).
    destruct (Hagain (restore c source w1) eq_refl) as (w3 & Hmerge & Hc & Hchat & Himage & Hfile).
    exists w3. split.
    + unfold chapter', process_chapter. fold c.
      rewrite (mbind_run _ _ _ _ _ Hread').
      rewrite (mbind_run _ _ _ _ _) by (unfold lift; rewrite Hfound; reflexivity).
      cbv beta iota.
      rewrite (mbind_run _ _ _ _ _) by (unfold lift; rewrite Hxml; reflexivity).
      rewrite (mbind_run _ _ _ _ _) by (unfold lift; rewrite Hwhitespace; reflexivity).
      rewrite (mbind_run _ _ _ [v1; v2; v3; v4; v5] (restore c source w1)); [exact Hmerge|].
      apply run_threaded_served.
      apply Forall2_same_length_lookup. split; [by eapply Forall2_length|].
      intros i j v Hj Hv. apply completion_served.
      * exact Hshelf_1.
      * pose proof (prompts_keys c (job_title job) (job_author job) (section_text section))
          as Hkeys.
        rewrite Forall_lookup in Hkeys. by eapply Hkeys.
      * eapply on_shelf_extends; [|eapply (Forall2_lookup_lr _ _ _ _ _ _ Hon Hj Hv)].
        intros k x Hk. cbn [restore cache_db]. by apply Hext_1.
    + cbn [restore cache_db chat_calls image_calls] in *.
      repeat split; congruence.
  - unfold mret in H. injection H as <- <-.
    exists (restore c source w). split.
    + unfold chapter', process_chapter. fold c.
      rewrite (mbind_run _ _ _ _ _ Hread').
      rewrite (mbind_run _ _ _ _ _) by (unfold lift; rewrite Hfound; reflexivity).
      reflexivity.
    + repeat split. cbn [restore files]. by rewrite lookup_insert_eq.
Qed.

End Rerun.

Lemma dict_get_In k v d : dict_get k d = Some v -> In (k, v) d.
Proof.
  induction d as [|[k' v'] d IH]; cbn [dict_get]; [discriminate|].
  destruct (String.eqb k k') eqn:E.
  - apply String.eqb_eq in E. intros [= ->]. left. congruence.
  - intros H. right. by apply IH.
Qed.

Lemma steady_completions_truthy kw w v :
  fst (get_completion_text (table_loads steady_table) steady_chat kw w) = Ok v ->
  truthy v = true.
Proof.
  unfold get_completion_text, steady_chat, completion_output. cbn [fst].
  destruct (req_tool kw) as [t|]; cbn [rbind].
  - cbn [mapM_res tool_output tool_calls]. unfold table_loads at 1.
    destruct (dict_get (tool_name t) steady_table) as [out|] eqn:Hout; cbn [rbind];
      [|discriminate].
    apply dict_get_In in Hout.
    assert (exists x, unwrap_items out = Ok x /\ truthy x = true) as (x & -> & Hx).
    { unfold steady_table in Hout. cbn [In] in Hout.
      destruct Hout as [[= _ <-]|[[= _ <-]|[[= _ <-]|[[= _ <-]|[]]]]]; eexists; split;
        reflexivity. }
    cbn [rbind]. destruct (n kw); intros [= <-]; [reflexivity|exact Hx].
  - cbn [map content]. destruct (n kw); intros [= <-]; reflexivity.
Qed.

Lemma demo_images_truthy image_prompt w v :
  fst (get_image demo_image image_prompt w) = Ok v -> truthy v = true.
Proof. cbn. by intros [= <-]. Qed.

Lemma demo_compressed_truthy data w v :
  fst (compress_image demo_quantize data w) = Ok v -> truthy v = true.
Proof. destruct data; cbn; try discriminate. by intros [= <-]. Qed.

(** A chapter processed in order, then again with its completions in
    reverse: the second run returns what the first returned and leaves the
    counts of remote calls, five and one, as they were. *)
Lemma rerun_without_empty_results_witness :
  exists r w2,
    fst (steady_process_chapter (in_order 5) (demo_job 1) (unpacked 1)) = Ok r
    /\ chat_calls (snd (steady_process_chapter (in_order 5) (demo_job 1) (unpacked 1))) = 5
    /\ steady_process_chapter reversed (demo_job 1)
         (restore (chapter 1) chapter_source
            (snd (steady_process_chapter (in_order 5) (demo_job 1) (unpacked 1))))
       = (Ok r, w2)
    /\ chat_calls w2 = chat_calls (snd (steady_process_chapter (in_order 5) (demo_job 1) (unpacked 1)))
    /\ image_calls w2
       = image_calls (snd (steady_process_chapter (in_order 5) (demo_job 1) (unpacked 1)))
    /\ cache_db w2 = cache_db (snd (steady_process_chapter (in_order 5) (demo_job 1) (unpacked 1)))
    /\ files w2 !! chapter_file (chapter 1)
       = files (snd (steady_process_chapter (in_order 5) (demo_job 1) (unpacked 1)))
           !! chapter_file (chapter 1).
Proof.
  destruct (steady_process_chapter (in_order 5) (demo_job 1) (unpacked 1)) as [res w1] eqn:Hfirst.
  assert (exists r, res = Ok r) as [r ->].
  { assert (res = fst (steady_process_chapter (in_order 5) (demo_job 1) (unpacked 1))) as ->
      by (by rewrite Hfirst).
    eexists. vm_compute. reflexivity. }
  assert (chat_calls w1 = 5) as Hcalls.
  { assert (w1 = snd (steady_process_chapter (in_order 5) (demo_job 1) (unpacked 1))) as ->
      by (by rewrite Hfirst).
    vm_compute. reflexivity. }
  destruct (rerun_without_empty_results no_repr (table_loads steady_table) steady_chat
              demo_image demo_quantize demo_find_section demo_section_text demo_fromstring
              demo_serialize_chapter
              "Write a precis." "Write a scene." "Annotate." "Add a sentence." "Illustrate."
              steady_completions_truthy demo_images_truthy demo_compressed_truthy
              (in_order 5) reversed (demo_job 1) chapter_source (unpacked 1) r w1)
    as (w2 & Hagain & Hrest).
  - intros k v Hk. cbn [unpacked cache_db] in Hk. by rewrite lookup_empty in Hk.
  - vm_compute. reflexivity.
  - exact Hfirst.
  - exists r, w2. cbn [fst snd]. split; [reflexivity|]. split; [exact Hcalls|].
    split; [exact Hagain|exact Hrest].
Defined.

(** * Further properties of the script *)

(** ** The cache wrapper *)

(** X2. The shelf is keyed by the cache key alone.  Once a call under a
    non-empty key has returned a non-empty result, every later call under
    that key returns this result and leaves the world as it is, whatever
    the function and the arguments of the later call: neither takes part in
    the lookup. *)
Theorem cached_key_alone {A B} (func : A -> M pyval) (func' : B -> M pyval)
    key args args' w v w' :
  key <> EmptyString ->
  cached func (Some key) args w = (Ok v, w') ->
  truthy v = true ->
  cached func' (Some key) args' w' = (Ok v, w').
Proof.
  intros Hkey Hrun Ht. unfold cached at 1. unfold key_given.
  assert (String.eqb key EmptyString = false) as -> by (by apply String.eqb_neq).
  unfold mbind, get_cache.
  rewrite (cached_leaves_entry func key args w v w' Hkey Hrun Ht).
  cbn [from_option id]. rewrite Ht. reflexivity.
Qed.

(** An image stored under a key is what a compression called with that key
    returns, uncompressed. *)
Lemma cached_key_alone_witness :
  cached (compress_image demo_quantize) (Some "cover") (PBytes "other bytes")
    (snd (cached (get_image demo_image) (Some "cover") "A cover" (unpacked 0)))
  = (Ok (PBytes "PNG"), snd (cached (get_image demo_image) (Some "cover") "A cover" (unpacked 0))).
Proof.
  apply (cached_key_alone (get_image demo_image) (compress_image demo_quantize) "cover"
           "A cover" (PBytes "other bytes") (unpacked 0) (PBytes "PNG")).
  - discriminate.
  - reflexivity.
  - reflexivity.
Defined.

(** X3. Failures are not cached.  When the shelf has nothing to serve under
    the key (no entry, or an empty one) and the wrapped function raises,
    the wrapper raises the same exception and writes nothing: the world is
    the one the function left, so the next call under the key runs the
    function again. *)
Theorem cached_failure_not_stored {A} (func : A -> M pyval) key args w e w' :
  key <> EmptyString ->
  truthy (default PNone (cache_db w !! key)) = false ->
  func args w = (Raise e, w') ->
  cached func (Some key) args w = (Raise e, w').
Proof.
  intros Hkey Hmiss Hrun. unfold cached, key_given.
  assert (String.eqb key EmptyString = false) as -> by (by apply String.eqb_neq).
  unfold mbind at 1. unfold get_cache. rewrite Hmiss.
  unfold mbind. rewrite Hrun. reflexivity.
Qed.

Lemma cached_failure_not_stored_witness :
  cached (get_image failing_image) (Some "cover") "A cover" (unpacked 0)
  = (Raise RemoteCallError,
     {| cache_db := ∅; files := ∅; chat_calls := 0; image_calls := 1 |}).
Proof.
  apply (cached_failure_not_stored (get_image failing_image) "cover" "A cover" (unpacked 0)).
  - discriminate.
  - reflexivity.
  - reflexivity.
Defined.

(** ** The text stage of the merge *)

(** X4. No candidate found, nothing added.  When every addition candidate
    carries an anchor sentence and none of these occurs in the current
    markup, the addition step returns the markup and the pending blocks as
    they were and raises nothing. *)
Theorem no_matching_addition py_str whitespace xml pending candidates :
  Forall (fun a => exists e, py_getitem a "existing_sentence" = Ok (PStr e)
                             /\ str_in e xml = false) candidates ->
  sentence_addition py_str whitespace (PList candidates) xml pending = Ok (xml, pending).
Proof.
  intros Hnone. unfold sentence_addition. cbn [py_iter rbind].
  induction Hnone as [|a candidates (e & He & Hin) _ IH]; [reflexivity|].
  cbn [addition_loop]. rewrite He. cbn [rbind py_in_str]. rewrite Hin. exact IH.
Qed.

Lemma no_matching_addition_witness :
  sentence_addition no_repr EmptyString
    (PList [candidate "Y." "N1"; candidate "Z." "N2"]) "A. B. C." ["<aside/>"]
  = Ok ("A. B. C.", ["<aside/>"]).
Proof.
  apply (no_matching_addition no_repr EmptyString "A. B. C." ["<aside/>"]
           [candidate "Y." "N1"; candidate "Z." "N2"]).
  repeat constructor; eexists; split; reflexivity.
Defined.

Lemma startswith_split p s :
  startswith p s = true -> s = p +:+ str_drop (String.length p) s.
Proof.
  revert s. induction p as [|a p IH]; intros s H; [reflexivity|].
  destruct s as [|b s]; [discriminate|]. cbn [startswith] in H.
  destruct (Ascii.eqb a b) eqn:E; [|discriminate]. apply Ascii.eqb_eq in E. subst b.
  change (String a s = String a (p +:+ str_drop (String.length p) s)).
  f_equal. by apply IH.
Qed.

(** [replace] on a string that holds [old]: the string splits around the
    first occurrence, which [new] replaces. *)
Lemma replace1_found old new s :
  str_in old s = true ->
  exists before behind, s = before +:+ old +:+ behind /\ replace1 old new s = before +:+ new +:+ behind.
Proof.
  induction s as [|c s IH]; intros H.
  - cbn [str_in replace1] in *. destruct (startswith old EmptyString) eqn:E; [|discriminate].
    exists EmptyString, (str_drop (String.length old) EmptyString). split; [|reflexivity].
    by apply startswith_split.
  - cbn [str_in replace1] in *. destruct (startswith old (String c s)) eqn:E.
    + exists EmptyString, (str_drop (String.length old) (String c s)). split; [|reflexivity].
      by apply startswith_split.
    + destruct (IH H) as (before & behind & Hs & Hr).
      exists (String c before), behind. rewrite Hs at 1. rewrite Hr. done.
Qed.

Lemma replace1_inserts anchors old more s :
  In old anchors -> str_in old s = true ->
  inserts_behind anchors s (replace1 old (old +:+ more) s).
Proof.
  intros Hanchor H.
  destruct (replace1_found old (old +:+ more) s H) as (before & behind & Hs & Hr).
  exists old, before, more, behind. split; [exact Hanchor|]. split; [exact Hs|].
  by rewrite Hr, !append_assoc.
Qed.

(** The addition loop applies one candidate at most: a candidate of the
    list whose existing sentence is in the markup. *)
Lemma addition_loop_cases py_str whitespace items : forall xml pending xml' pending',
  addition_loop py_str whitespace items xml pending = Ok (xml', pending') ->
  (xml' = xml /\ pending' = pending)
  \/ exists addition existing new_sentence,
       In addition items
       /\ py_getitem addition "existing_sentence" = Ok (PStr existing)
       /\ str_in existing xml = true
       /\ xml' = replace1 existing (existing +:+ " " +:+ new_sentence) xml
       /\ pending' = pending ++ [addition_box whitespace new_sentence].
Proof.
  induction items as [|a items IH]; intros xml pending xml' pending' H; cbn [addition_loop] in H.
  - injection H as <- <-. by left.
  - try_ok H. destruct a0 as [| | |existing| | |]; try discriminate.
    cbn [py_in_str rbind] in H. destruct (str_in existing xml) eqn:Hin.
    + rewrite Ha in H. cbn [rbind] in H. try_ok H. rewrite Ha0 in H. cbn [rbind] in H.
      injection H as <- <-. right. exists a, existing, (fmt py_str a0).
      split; [by left|]. done.
    + apply IH in H as [H|(addition & e & n' & Hmem & H)]; [by left|].
      right. exists addition, e, n'. split; [by right|exact H].
Qed.

Lemma annotation_loop_inserts py_str stem whitespace anchors items : forall i st st',
  (forall annotation, In annotation items -> incl (annotation_anchor annotation) anchors) ->
  annotation_loop py_str stem whitespace i items st = Ok st' ->
  rtc (inserts_behind anchors) (section_xml st) (section_xml st').
Proof.
  induction items as [|a items IH]; intros i st st' Hanchors H; cbn [annotation_loop] in H.
  - injection H as <-. apply rtc_refl.
  - try_ok H. apply IH in H; [|intros annotation Hmem; apply Hanchors; by right].
    apply annotation_step_turn in Ha
      as [[-> _]|(raw & note & Htext & _ & Hin & Hx & _)]; [exact H|].
    eapply rtc_l; [|exact H]. rewrite Hx. unfold mark. cbn [fst snd].
    apply replace1_inserts; [|exact Hin].
    apply (Hanchors a); [by left|]. unfold annotation_anchor. rewrite Htext. by left.
Qed.

Lemma append_length (a b : string) :
  String.length (a +:+ b) = String.length a + String.length b.
Proof.
  induction a as [|x a IH]; [reflexivity|].
  change (Datatypes.S (String.length (a +:+ b))
          = Datatypes.S (String.length a + String.length b)).
  by rewrite IH.
Qed.

Lemma inserts_behind_length anchors s s' :
  inserts_behind anchors s s' -> String.length s <= String.length s'.
Proof.
  intros (anchor & before & inserted & behind & _ & -> & ->). rewrite !append_length. lia.
Qed.

(** X5. The text stage only inserts, and only behind anchors.  The markup
    it returns is reached from the markup it was given by insertions, one
    at a time, each of a fragment put right behind an occurrence of an
    anchor, the stripped text of one of the annotations or the existing
    sentence of one of the addition candidates: no character of the chapter
    is removed or changed, and the markup never gets shorter. *)
Theorem merge_text_only_inserts py_str stem whitespace xml annotations additions xml' pending :
  merge_text py_str stem whitespace xml annotations additions = Ok (xml', pending) ->
  rtc (inserts_behind (anchors_of annotations additions)) xml xml'
  /\ String.length xml <= String.length xml'.
Proof.
  intros H.
  assert (rtc (inserts_behind (anchors_of annotations additions)) xml xml') as Hsteps.
  { unfold merge_text in H. try_ok H.
    assert (rtc (inserts_behind (anchors_of annotations additions)) xml (section_xml a))
      as Hfoot.
    { unfold footnotes in Ha. destruct (truthy annotations).
      - try_ok Ha.
        apply (annotation_loop_inserts _ _ _ (anchors_of annotations additions)) in Ha;
          [exact Ha|].
        intros annotation Hmem anchor Hanchor. unfold anchors_of, items_of.
        rewrite Ha0. apply in_or_app. left. apply in_flat_map. by exists annotation.
      - injection Ha as <-. apply rtc_refl. }
    unfold sentence_addition in H. try_ok H.
    apply addition_loop_cases in H
      as [[-> _]|(addition & existing & new_sentence & Hmem & Hexisting & Hin & -> & _)];
      [exact Hfoot|].
    eapply rtc_r; [exact Hfoot|]. apply replace1_inserts; [|exact Hin].
    unfold anchors_of, items_of. rewrite Ha0. apply in_or_app. right.
    apply in_flat_map. exists addition. split; [exact Hmem|].
    unfold addition_anchor. rewrite Hexisting. by left. }
  split; [exact Hsteps|]. clear H.
  induction Hsteps as [|s1 s2 s3 Hstep _ IH]; [done|].
  apply inserts_behind_length in Hstep. lia.
Qed.

(** A footnote and a sentence are inserted, behind cat, behind dog and
    behind sat.: the text is still all there. *)
Lemma merge_text_only_inserts_witness :
  exists xml' pending,
    merge_text no_repr "ch1" EmptyString "the cat sat. the dog ran." three_annotations
      (PList [candidate "sat." "It purred."])
    = Ok (xml', pending)
    /\ anchors_of three_annotations (PList [candidate "sat." "It purred."])
       = ["cat"; "bird"; "dog"; "sat."]
    /\ rtc (inserts_behind
              (anchors_of three_annotations (PList [candidate "sat." "It purred."])))
         "the cat sat. the dog ran." xml'
    /\ String.length "the cat sat. the dog ran." <= String.length xml'.
Proof.
  eexists _, _. split; [vm_compute; reflexivity|]. split; [vm_compute; reflexivity|].
  eapply (merge_text_only_inserts no_repr "ch1" EmptyString "the cat sat. the dog ran."
            three_annotations (PList [candidate "sat." "It purred."])).
  vm_compute. reflexivity.
Defined.

Lemma append_inv_head (a x y : string) : a +:+ x = a +:+ y -> x = y.
Proof.
  induction a as [|c a IH]; [done|].
  change (String c (a +:+ x) = String c (a +:+ y) -> x = y). intros [= H]. by apply IH.
Qed.

Lemma note_id_inj stem i j : note_id stem i = note_id stem j -> i = j.
Proof.
  unfold note_id. intros H. apply append_inv_head in H.
  apply (append_inv_head "-note") in H. by apply (inj pretty) in H.
Qed.

(** X6. Footnote ids come from list positions.  The footnote made for the
    annotation at index i of the list has the id made of the stem of the
    chapter, of -note and of i: this is the target of the reference marker
    put behind the anchor of that annotation, and the id of the block
    queued with the note of that annotation.  The footnotes are made in
    list order, so no two footnotes of a chapter share an id, while the
    numbers their markers show run from 1 without gaps; an annotation
    without a footnote was passed over at its turn. *)
Theorem footnote_ids_by_position py_str stem whitespace xml items st :
  footnotes py_str stem whitespace xml (PList items) = Ok st ->
  exists entries : list (nat * (string * string)),
    sublist (map fst entries) (seq 0 (length items))
    /\ Forall (fun e =>
                 exists annotation raw note,
                   items !! fst e = Some annotation
                   /\ py_getitem annotation "text" = Ok (PStr raw)
                   /\ fst (snd e) = rstrip_dot raw
                   /\ py_getitem annotation "annotation" = Ok note
                   /\ snd (snd e) = fmt py_str note) entries
    /\ (forall i annotation,
          items !! i = Some annotation -> ~ In i (map fst entries) ->
          passed_over annotation
            (fold_left (mark stem)
               (combine
                  (seq 1 (length (List.filter (fun e => Nat.ltb (fst e) i) entries)))
                  entries)
               xml))
    /\ section_xml st
       = fold_left (mark stem) (combine (seq 1 (length entries)) entries) xml
    /\ section_append st
       = map (fun e => publisher_aside whitespace (note_id stem (fst e)) (snd (snd e)))
           entries
    /\ NoDup (map (fun e => note_id stem (fst e)) entries).
Proof.
  unfold footnotes. intros H.
  assert (forall entries : list (nat * (string * string)),
             sublist (map fst entries) (seq 0 (length items)) ->
             NoDup (map (fun e => note_id stem (fst e)) entries)) as Hdistinct.
  { intros entries Hsub.
    replace (map (fun e => note_id stem (fst e)) entries)
      with (map (note_id stem) (map fst entries)) by (by rewrite map_map).
    apply NoDup_fmap_2.
    - intros i j. apply note_id_inj.
    - apply (sublist_NoDup _ _ (NoDup_seq 0 (length items)) Hsub). }
  destruct (truthy (PList items)) eqn:Htruthy.
  - cbn [py_iter rbind] in H.
    apply annotation_loop_trace in H
      as (entries & Hsub & Htie & _ & Hpass & Hxml & _ & Happ).
    cbn [section_xml footnote_number section_append app] in *.
    exists entries. split; [exact Hsub|]. split.
    { rewrite Forall_forall in Htie |- *. intros e He.
      destruct (Htie e He) as (annotation & raw & note & _ & Hi & Hrest).
      rewrite Nat.sub_0_r in Hi. by exists annotation, raw, note. }
    split; [intros i annotation Hi Hnotin; by apply (Hpass i)|].
    split; [exact Hxml|]. split; [exact Happ|]. by apply Hdistinct.
  - destruct items; [|discriminate]. injection H as <-. exists [].
    split; [apply sublist_nil_l|]. split; [constructor|].
    split; [intros i annotation Hi; by rewrite lookup_nil in Hi|].
    split; [done|]. split; [done|]. constructor.
Qed.

(** Three annotations, the second without anchor in the text: the footnotes
    have the ids of the positions 0 and 2, in the markers and in the
    blocks. *)
Lemma footnote_ids_by_position_witness :
  exists st,
    footnotes no_repr "ch1" EmptyString "the cat sat. the dog ran."
      (PList [ PDict [("text", PStr "cat"); ("annotation", PStr "feline")];
               PDict [("text", PStr "bird..."); ("annotation", PStr "avian")];
               PDict [("text", PStr "dog."); ("annotation", PStr "canine")] ]) = Ok st
    /\ section_append st
       = [ publisher_aside EmptyString "ch1-note0" "feline";
           publisher_aside EmptyString "ch1-note2" "canine" ]
    /\ section_xml st
       = "the cat" +:+ numbered_marker "ch1-note0" 1 +:+ " sat. the dog"
         +:+ numbered_marker "ch1-note2" 2 +:+ " ran."
    /\ exists entries : list (nat * (string * string)),
         sublist (map fst entries) (seq 0 3)
         /\ Forall (fun e =>
                      exists annotation raw note,
                        [ PDict [("text", PStr "cat"); ("annotation", PStr "feline")];
                          PDict [("text", PStr "bird..."); ("annotation", PStr "avian")];
                          PDict [("text", PStr "dog."); ("annotation", PStr "canine")] ]
                          !! fst e = Some annotation
                        /\ py_getitem annotation "text" = Ok (PStr raw)
                        /\ fst (snd e) = rstrip_dot raw
                        /\ py_getitem annotation "annotation" = Ok note
                        /\ snd (snd e) = fmt no_repr note) entries
         /\ (forall i annotation,
               [ PDict [("text", PStr "cat"); ("annotation", PStr "feline")];
                 PDict [("text", PStr "bird..."); ("annotation", PStr "avian")];
                 PDict [("text", PStr "dog."); ("annotation", PStr "canine")] ] !! i
               = Some annotation ->
               ~ In i (map fst entries) ->
               passed_over annotation
                 (fold_left (mark "ch1")
                    (combine
                       (seq 1 (length (List.filter (fun e => Nat.ltb (fst e) i) entries)))
                       entries)
                    "the cat sat. the dog ran."))
         /\ section_xml st
            = fold_left (mark "ch1") (combine (seq 1 (length entries)) entries)
                "the cat sat. the dog ran."
         /\ section_append st
            = map (fun e => publisher_aside EmptyString (note_id "ch1" (fst e)) (snd (snd e)))
                entries
         /\ NoDup (map (fun e => note_id "ch1" (fst e)) entries).
Proof.
  eexists. split; [vm_compute; reflexivity|]. split; [vm_compute; reflexivity|].
  split; [vm_compute; reflexivity|].
  apply (footnote_ids_by_position no_repr "ch1" EmptyString "the cat sat. the dog ran."
           [ PDict [("text", PStr "cat"); ("annotation", PStr "feline")];
             PDict [("text", PStr "bird..."); ("annotation", PStr "avian")];
             PDict [("text", PStr "dog."); ("annotation", PStr "canine")] ]).
  vm_compute. reflexivity.
Defined.

Lemma str_in_empty s : str_in EmptyString s = true.
Proof. by destruct s. Qed.

(** X7. An anchor of periods only is found everywhere.  When the text of an
    annotation is empty or consists of periods, stripping leaves the empty
    string, which occurs in any markup: the annotation gets its footnote,
    and the reference marker is put at the very start of the markup. *)
Theorem empty_anchor_at_start py_str stem whitespace st i annotation raw note :
  py_getitem annotation "text" = Ok (PStr raw) ->
  rstrip_dot raw = EmptyString ->
  py_getitem annotation "annotation" = Ok note ->
  annotation_step py_str stem whitespace st i annotation
  = Ok {| section_xml :=
            noteref "Publisher" (note_id stem i) (footnote_number st) +:+ section_xml st;
          footnote_number := footnote_number st + 1;
          section_append :=
            section_append st
            ++ [footnote_aside whitespace (note_id stem i) "Publisher" (fmt py_str note)];
          noterefs := noterefs st ++ [footnote_number st] |}.
Proof.
  intros Hraw Hstrip Hnote.
  destruct annotation as [| | | | | |d]; try discriminate.
  unfold py_getitem in Hraw, Hnote.
  destruct (dict_get "text" d) as [x|] eqn:Htext; [|discriminate]. injection Hraw as ->.
  destruct (dict_get "annotation" d) as [y|] eqn:Hann; [|discriminate]. injection Hnote as ->.
  unfold annotation_step, skip_annotation. cbn [py_contains rbind]. unfold dict_has.
  rewrite Htext. cbn [negb rbind py_getitem]. rewrite Htext. cbn [rbind py_rstrip_dot].
  rewrite Hstrip, str_in_empty. cbn [py_setitem rbind py_getitem].
  rewrite dict_get_set_eq. cbn [rbind].
  rewrite dict_get_set_ne by discriminate. rewrite Hann. cbn [rbind fmt].
  unfold note_id. destruct (section_xml st); reflexivity.
Qed.

Lemma empty_anchor_at_start_witness :
  annotation_step no_repr "ch1" EmptyString
    {| section_xml := "the cat sat"; footnote_number := 1; section_append := []; noterefs := [] |}
    0 (PDict [("text", PStr "..."); ("annotation", PStr "sic")])
  = Ok {| section_xml := noteref "Publisher" (note_id "ch1" 0) 1 +:+ "the cat sat";
          footnote_number := 1 + 1;
          section_append :=
            [] ++ [footnote_aside EmptyString (note_id "ch1" 0) "Publisher" "sic"];
          noterefs := [] ++ [1] |}.
Proof.
  apply (empty_anchor_at_start no_repr "ch1" EmptyString
           {| section_xml := "the cat sat"; footnote_number := 1; section_append := [];
              noterefs := [] |}
           0 (PDict [("text", PStr "..."); ("annotation", PStr "sic")]) "..." (PStr "sic"));
    reflexivity.
Defined.

(** ** The tree stage of the merge *)

Lemma commentary_line_ok py_str c :
  well_formed_line c = true ->
  exists speaker line,
    py_getitem c "speaker" = Ok speaker /\ py_getitem c "line" = Ok line
    /\ commentary_line py_str c
       = Ok (commentary_paragraph (fmt py_str speaker) (fmt py_str line)).
Proof.
  destruct c as [| | | | | |d]; try discriminate. cbn [well_formed_line]. unfold dict_has.
  intros H. apply andb_true_iff in H as [Hs Hl].
  unfold commentary_line, py_getitem.
  destruct (dict_get "speaker" d) as [speaker|]; [|discriminate].
  destruct (dict_get "line" d) as [line|]; [|discriminate].
  exists speaker, line. done.
Qed.

(** X8. The commentary keeps the well-formed lines.  Whatever the entries of
    the commentary are, no entry makes the step raise: the entries that are
    dicts with a speaker and a line are rendered, one paragraph each, in
    their order, the others are left out, and the block of these paragraphs
    is appended to the section. *)
Theorem commentary_keeps_well_formed py_str fromstring whitespace commentary items section :
  py_iter commentary = Ok items ->
  exists lines,
    Forall2 (fun c rendered =>
               exists speaker line,
                 py_getitem c "speaker" = Ok speaker /\ py_getitem c "line" = Ok line
                 /\ rendered = commentary_paragraph (fmt py_str speaker) (fmt py_str line))
            (List.filter well_formed_line items) lines
    /\ place_commentary py_str fromstring whitespace commentary section
       = pq_append fromstring (commentary_box whitespace lines) section.
Proof.
  intros Hiter. unfold place_commentary. rewrite Hiter. cbn [rbind].
  assert (exists lines,
             Forall2 (fun c rendered =>
                        exists speaker line,
                          py_getitem c "speaker" = Ok speaker /\ py_getitem c "line" = Ok line
                          /\ rendered
                             = commentary_paragraph (fmt py_str speaker) (fmt py_str line))
                     (List.filter well_formed_line items) lines
             /\ mapM_res (commentary_line py_str) (List.filter well_formed_line items)
                = Ok lines) as (lines & Hlines & ->).
  { clear Hiter. induction items as [|c items (lines & Hlines & IH)].
    - exists []. split; [constructor|reflexivity].
    - cbn [List.filter]. destruct (well_formed_line c) eqn:Hc; [|by exists lines].
      destruct (commentary_line_ok py_str c Hc) as (speaker & line & Hs & Hl & Hrender).
      eexists (_ :: lines). split.
      + constructor; [|exact Hlines]. by exists speaker, line.
      + cbn [mapM_res]. rewrite Hrender. cbn [rbind]. rewrite IH. reflexivity. }
  exists lines. split; [exact Hlines|]. reflexivity.
Qed.

(** Four entries, two of them malformed: two paragraphs. *)
Lemma commentary_keeps_well_formed_witness :
  exists lines,
    Forall2 (fun c rendered =>
               exists speaker line,
                 py_getitem c "speaker" = Ok speaker /\ py_getitem c "line" = Ok line
                 /\ rendered = commentary_paragraph (fmt no_repr speaker) (fmt no_repr line))
            (List.filter well_formed_line
               [dialogue_line "SassBot" "Well."; PDict [("speaker", PStr "PoetBot")];
                PStr "aside"; dialogue_line "PoserBot" "Indeed."]) lines
    /\ place_commentary no_repr demo_fromstring EmptyString
         (PList [dialogue_line "SassBot" "Well."; PDict [("speaker", PStr "PoetBot")];
                 PStr "aside"; dialogue_line "PoserBot" "Indeed."]) no_children
       = pq_append demo_fromstring (commentary_box EmptyString lines) no_children.
Proof.
  apply (commentary_keeps_well_formed no_repr demo_fromstring EmptyString
           (PList [dialogue_line "SassBot" "Well."; PDict [("speaker", PStr "PoetBot")];
                   PStr "aside"; dialogue_line "PoserBot" "Indeed."])).
  reflexivity.
Defined.

Lemma paths_from_nil {A} (sel : A -> list (list nat)) l : forall i,
  paths_from sel i l = [] -> Forall (fun a => sel a = []) l.
Proof.
  induction l as [|a l IH]; intros i H; [constructor|].
  cbn [paths_from] in H. apply app_eq_nil in H as [Ha Hl].
  constructor; [|by eapply IH]. by destruct (sel a).
Qed.

Lemma select_in_nil_tag name e : select_in name e = [] -> String.eqb (etag e) name = false.
Proof.
  destruct e as [tag attrib text children tail]. cbn [select_in etag].
  by destruct (String.eqb tag name).
Qed.

(** Where no element has the tag, [after] on the elements of that tag
    changes nothing. *)
Lemma after_each_none name root_text root e :
  select_in name e = [] -> after_each name root_text root e = e.
Proof.
  induction e as [tag attrib text children tail IH] using element_children_ind.
  intros H. cbn [select_in] in H. apply app_eq_nil in H as [_ H].
  apply paths_from_nil in H. cbn [after_each]. f_equal.
  induction children as [|c children IHc]; [reflexivity|].
  apply Forall_cons in IH as [IHhead IHtail]. apply Forall_cons in H as [Hhead Htail].
  cbn [flat_map]. rewrite (select_in_nil_tag name c Hhead), (IHhead Hhead).
  cbn [app]. f_equal. by apply IHc.
Qed.

Lemma after_each_forest_none name root_text root forest :
  paths_from (select_in name) 0 forest = [] ->
  after_each_forest name root_text root forest = forest.
Proof.
  intros H. apply paths_from_nil in H. unfold after_each_forest.
  induction H as [|c forest Hc _ IH]; [reflexivity|].
  cbn [flat_map]. rewrite (select_in_nil_tag name c Hc), (after_each_none _ _ _ c Hc).
  cbn [app]. f_equal. exact IH.
Qed.

(** X9. Without a header, no precis.  The summary block goes behind the
    header elements of the section; when the section has none, the step
    returns the section as it is, without an error: the precis that was
    generated does not reach the chapter. *)
Theorem summary_without_header fromstring whitespace summary section trimmed parsed :
  select "header" section = [] ->
  py_strip_quotes summary = Ok trimmed ->
  fromstring (summary_box whitespace trimmed) = Ok parsed ->
  place_summary fromstring whitespace summary section = Ok section.
Proof.
  intros Hnone Hstrip Hparse. unfold place_summary, pq_after_each.
  rewrite Hstrip. cbn [rbind]. rewrite Hparse. cbn [rbind].
  rewrite after_each_forest_none by exact Hnone. by destruct section.
Qed.

Lemma summary_without_header_witness :
  place_summary demo_fromstring EmptyString (PStr "A precis.")
    {| sec_text := None; sec_children := [Element "p" [] "One." [] EmptyString] |}
  = Ok {| sec_text := None; sec_children := [Element "p" [] "One." [] EmptyString] |}.
Proof.
  apply (summary_without_header demo_fromstring EmptyString (PStr "A precis.")
           {| sec_text := None; sec_children := [Element "p" [] "One." [] EmptyString] |}
           "A precis."
           (None, [Element "p" [] (summary_box EmptyString "A precis.") [] EmptyString]));
    reflexivity.
Defined.

(** ** The chapter pipeline *)

(** X10. A chapter without a section is skipped.  When the chapter file
    parses to a document in which no section is selected, process_chapter
    returns None at once: no request goes to a remote service, the shelf is
    not consulted, and no file is written. *)
Theorem chapter_without_section_skipped py_str partial_json_loads chat_backend image_backend
    resize_and_quantize find_section section_text fromstring serialize_chapter
    precis_prompt commentary_prompt annotation_prompt addition_prompt illustration_prompt
    sched job w chapter_xml :
  files w !! chapter_file (job_chapter_path job) = Some chapter_xml ->
  find_section chapter_xml = Ok None ->
  process_chapter py_str partial_json_loads chat_backend image_backend resize_and_quantize
    find_section section_text fromstring serialize_chapter
    precis_prompt commentary_prompt annotation_prompt addition_prompt illustration_prompt
    sched job w
  = (Ok PNone, w).
Proof.
  intros Hfile Hnone. unfold process_chapter.
  rewrite (mbind_run _ _ w chapter_xml w) by (unfold read_file; by rewrite Hfile).
  rewrite (mbind_run _ _ w None w) by (unfold lift; by rewrite Hnone).
  reflexivity.
Qed.

Lemma chapter_without_section_skipped_witness :
  demo_process_chapter demo_chat (demo_job 1)
    {| cache_db := ∅; files := {[ chapter_file (chapter 1) := "<html><body/></html>" ]};
       chat_calls := 0; image_calls := 0 |}
  = (Ok PNone,
     {| cache_db := ∅; files := {[ chapter_file (chapter 1) := "<html><body/></html>" ]};
        chat_calls := 0; image_calls := 0 |}).
Proof.
  apply (chapter_without_section_skipped no_repr (table_loads demo_table) demo_chat demo_image
           demo_quantize demo_find_section demo_section_text demo_fromstring
           demo_serialize_chapter
           "Write a precis." "Write a scene." "Annotate." "Add a sentence." "Illustrate."
           (in_order 5) (demo_job 1)
           {| cache_db := ∅; files := {[ chapter_file (chapter 1) := "<html><body/></html>" ]};
              chat_calls := 0; image_calls := 0 |}
           "<html><body/></html>").
  - apply lookup_singleton_eq.
  - reflexivity.
Defined.

(** ** Registering the chapters *)

Lemma append_manifests_none fromstring chapter_results : forall manifest,
  In PNone chapter_results -> exists e, append_manifests fromstring chapter_results manifest = Raise e.
Proof.
  induction chapter_results as [|chapter rest IH]; intros manifest Hin; [destruct Hin|].
  cbn [append_manifests]. destruct Hin as [->|Hin]; [by eexists|].
  destruct (py_getitem chapter "manifest") as [item|e]; cbn [rbind]; [|by eexists].
  destruct (py_markup item) as [markup|e]; cbn [rbind]; [|by eexists].
  destruct (pq_append fromstring markup manifest) as [manifest'|e]; cbn [rbind]; [|by eexists].
  by apply IH.
Qed.

(** X11. A skipped chapter stops the registration.  process_chapter returns
    None for a chapter without a section, and the loop that registers the
    illustrations subscripts every chapter result: when the results hold a
    None, the registration raises, and the package document is not written
    back, whatever was added to it in memory. *)
Theorem register_chapters_with_skipped fromstring parse_opf serialize_opf work_dir
    chapter_results w :
  In PNone chapter_results ->
  exists e,
    register_chapters fromstring parse_opf serialize_opf work_dir chapter_results w
    = (Raise e, w).
Proof.
  intros Hin. unfold register_chapters, mbind, read_file, lift.
  destruct (files w !! (work_dir +:+ "/epub/content.opf")) as [source|]; [|by eexists].
  destruct (parse_opf source) as [pq|e]; [|by eexists].
  destruct (pq_prepend fromstring publisher_item (opf_manifest pq)) as [manifest|e];
    [|by eexists].
  destruct (append_manifests_none fromstring chapter_results manifest Hin) as [e ->].
  by eexists.
Qed.

(** Two chapters, the second without a section: TypeError, and the package
    document stays as it was. *)
Lemma register_chapters_with_skipped_witness :
  register_chapters demo_fromstring demo_parse_opf demo_serialize_opf "work_dir"
    [PDict [("manifest", PStr "<item/>")]; PNone]
    {| cache_db := ∅; files := {[ "work_dir/epub/content.opf" := "<package/>" ]};
       chat_calls := 0; image_calls := 0 |}
  = (Raise TypeError,
     {| cache_db := ∅; files := {[ "work_dir/epub/content.opf" := "<package/>" ]};
        chat_calls := 0; image_calls := 0 |})
  /\ exists e,
       register_chapters demo_fromstring demo_parse_opf demo_serialize_opf "work_dir"
         [PDict [("manifest", PStr "<item/>")]; PNone]
         {| cache_db := ∅; files := {[ "work_dir/epub/content.opf" := "<package/>" ]};
            chat_calls := 0; image_calls := 0 |}
       = (Raise e,
          {| cache_db := ∅; files := {[ "work_dir/epub/content.opf" := "<package/>" ]};
             chat_calls := 0; image_calls := 0 |}).
Proof.
  split; [vm_compute; reflexivity|].
  apply (register_chapters_with_skipped demo_fromstring demo_parse_opf demo_serialize_opf
           "work_dir" [PDict [("manifest", PStr "<item/>")]; PNone]).
  right. left. reflexivity.
Defined.

(** ** What a chapter run may do to the world *)

Section Confined.

Variable allowed : string -> Prop.

Lemma confined_weaken {A} (c : M A) a b a' b' :
  a <= a' -> b <= b' -> confined allowed a b c -> confined allowed a' b' c.
Proof.
  intros Ha Hb Hc w. destruct (Hc w) as (H1 & H2 & H3 & H4).
  split; [lia|]. split; [lia|]. by split.
Qed.

Lemma confined_bind {A B} (c : M A) (k : A -> M B) a b a' b' :
  confined allowed a b c -> (forall x, confined allowed a' b' (k x)) ->
  confined allowed (a + a') (b + b') (mbind c k).
Proof.
  intros Hc Hk w. specialize (Hc w). unfold mbind.
  destruct (c w) as [[x|e] u]; cbn [snd] in *.
  - destruct Hc as (H1 & H2 & H3 & H4). destruct (Hk x u) as (K1 & K2 & K3 & K4).
    split; [lia|]. split; [lia|]. split.
    + intros path Hp. rewrite K3 by done. by apply H3.
    + intros key v Hkey Hv. apply K4; [|exact Hv]. by apply H4.
  - destruct Hc as (H1 & H2 & H3 & H4). split; [lia|]. split; [lia|]. by split.
Qed.

(** A piece that leaves the files and the shelf as they are. *)
Lemma confined_still {A} (c : M A) a b :
  (forall w, files (snd (c w)) = files w /\ cache_db (snd (c w)) = cache_db w
             /\ chat_calls (snd (c w)) <= chat_calls w + a
             /\ image_calls (snd (c w)) <= image_calls w + b) ->
  confined allowed a b c.
Proof.
  intros H w. destruct (H w) as (Hfiles & Hshelf & H1 & H2).
  split; [exact H1|]. split; [exact H2|]. rewrite Hfiles, Hshelf. by split.
Qed.

Lemma confined_lift {A B} (r : pyres A) (k : A -> M B) a b :
  (forall x, confined allowed a b (k x)) -> confined allowed a b (mbind (lift r) k).
Proof.
  intros Hk w. unfold mbind, lift. destruct r as [x|e]; [apply Hk|].
  cbn [snd]. split; [lia|]. split; [lia|]. by split.
Qed.

Lemma confined_mret {A} (x : A) : confined allowed 0 0 (mret x).
Proof. apply confined_still. intros w. cbn [mret snd]. repeat split; lia. Qed.

Lemma confined_mraise {A} e : confined allowed 0 0 (@mraise A e).
Proof. apply confined_still. intros w. cbn [mraise snd]. repeat split; lia. Qed.

Lemma confined_read_file path : confined allowed 0 0 (read_file path).
Proof.
  apply confined_still. intros w. unfold read_file.
  destruct (files w !! path); cbn [snd]; repeat split; lia.
Qed.

Lemma confined_write_file path data : allowed path -> confined allowed 0 0 (write_file path data).
Proof.
  intros Hp w. cbn [write_file snd chat_calls image_calls files cache_db].
  split; [lia|]. split; [lia|]. split; [|done].
  intros path' Hp'. apply lookup_insert_ne. by intros ->.
Qed.

Lemma confined_write_bytes path data :
  allowed path -> confined allowed 0 0 (write_bytes path data).
Proof.
  intros Hp. destruct data; try apply confined_mraise. by apply confined_write_file.
Qed.

(** The wrapper adds no request and no write to a book file to those of the
    function, and it writes the shelf on a miss only: under a key whose
    entry is absent or empty. *)
Lemma confined_cached {A} (func : A -> M pyval) cache_key args a b :
  confined allowed a b (func args) -> confined allowed a b (cached func cache_key args).
Proof.
  intros Hf. unfold cached. destruct (key_given cache_key) as [key|]; [|exact Hf].
  intros w. unfold mbind, get_cache.
  destruct (truthy (default PNone (cache_db w !! key))) eqn:Hhit.
  { cbn [mret snd]. split; [lia|]. split; [lia|]. by split. }
  destruct (Hf w) as (H1 & H2 & H3 & H4). destruct (func args w) as [[out|e] u]; cbn [snd] in *.
  - cbn [store_cache mret snd chat_calls image_calls files cache_db].
    split; [exact H1|]. split; [exact H2|]. split; [exact H3|].
    intros key' v Hkey Hv. destruct (decide (key = key')) as [<-|Hne].
    + rewrite Hkey in Hhit. cbn [from_option id] in Hhit. congruence.
    + rewrite lookup_insert_ne by done. by apply H4.
  - split; [exact H1|]. split; [exact H2|]. by split.
Qed.

Lemma confined_get_completion_text loads backend kw :
  confined allowed 1 0 (get_completion_text loads backend kw).
Proof.
  apply confined_still. intros w.
  cbn [get_completion_text snd chat_calls image_calls files cache_db]. repeat split; lia.
Qed.

Lemma confined_get_image backend image_prompt :
  confined allowed 0 1 (get_image backend image_prompt).
Proof.
  apply confined_still. intros w.
  cbn [get_image snd chat_calls image_calls files cache_db]. repeat split; lia.
Qed.

Lemma confined_compress_image quantize data :
  confined allowed 0 0 (compress_image quantize data).
Proof.
  destruct data; try apply confined_mraise.
  apply confined_still. intros w. cbn [compress_image lift snd]. repeat split; lia.
Qed.

(** The workers run each job of [order] once at most, each within the
    budget of one job. *)
Lemma complete_confined {J R} (a b : nat) (func : J -> M R) first_pending jobs order :
  (forall j, In j jobs -> confined allowed a b (func j)) ->
  forall futures w,
    chat_calls (snd (complete first_pending func jobs order futures w))
    <= chat_calls w + a * length order
    /\ image_calls (snd (complete first_pending func jobs order futures w))
       <= image_calls w + b * length order
    /\ (forall path, ~ allowed path ->
          files (snd (complete first_pending func jobs order futures w)) !! path
          = files w !! path)
    /\ (forall key v,
          cache_db w !! key = Some v -> truthy v = true ->
          cache_db (snd (complete first_pending func jobs order futures w)) !! key = Some v).
Proof.
  intros Hf. induction order as [|i order IH]; intros futures w; cbn [complete length].
  - cbn [snd]. split; [lia|]. split; [lia|]. by split.
  - destruct (failure_surfaced futures && Nat.leb first_pending i).
    { destruct (IH futures w) as (H1 & H2 & H3 & H4). split; [lia|]. split; [lia|]. by split. }
    destruct (jobs !! i) as [j|] eqn:Hj.
    2:{ destruct (IH futures w) as (H1 & H2 & H3 & H4). split; [lia|]. split; [lia|].
        by split. }
    assert (In j jobs) as Hin by (apply list_elem_of_In; by eapply list_elem_of_lookup_2).
    pose proof (Hf j Hin w) as (F1 & F2 & F3 & F4). destruct (func j w) as [r u].
    cbn [snd] in *.
    destruct (IH (<[i := Some r]> futures) u) as (H1 & H2 & H3 & H4).
    split; [lia|]. split; [lia|]. split.
    + intros path Hp. rewrite H3 by done. by apply F3.
    + intros key v Hkey Hv. apply H4; [|exact Hv]. by apply F4.
Qed.

Lemma confined_run_threaded {J R} (a b : nat) (func : J -> M R) sched jobs :
  (forall j, In j jobs -> confined allowed a b (func j)) ->
  confined allowed (a * length jobs) (b * length jobs) (run_threaded sched func jobs).
Proof.
  intros Hf w. unfold run_threaded, run_futures.
  pose proof (complete_confined a b func (started sched) jobs
                (completion_order (latency sched) (length jobs)) Hf
                (replicate (length jobs) None) w) as (H1 & H2 & H3 & H4).
  destruct (complete _ _ _ _ _ _) as [futures u]. cbn [snd] in *.
  rewrite (Permutation_length (completion_order_perm _ _)), length_seq in H1, H2.
  split; [exact H1|]. split; [exact H2|]. by split.
Qed.

End Confined.

Lemma confined_mono {A} (allowed allowed' : string -> Prop) a b (c : M A) :
  (forall path, allowed path -> allowed' path) ->
  confined allowed a b c -> confined allowed' a b c.
Proof.
  intros Hsub Hc w. destruct (Hc w) as (H1 & H2 & H3 & H4).
  split; [exact H1|]. split; [exact H2|]. split; [|exact H4].
  intros path Hp. apply H3. intros Hallowed. by apply Hp, Hsub.
Qed.

Section ChapterConfined.

Variable py_str : pyval -> string.
Variable partial_json_loads : string -> pyres pyval.
Variable chat_backend : nat -> request -> pyres (list choice).
Variable image_backend : nat -> string -> pyres string.
Variable resize_and_quantize : string -> pyres string.
Variable find_section : string -> pyres (option section_dom).
Variable section_text : section_dom -> string.
Variable fromstring : string -> pyres (option string * list element).
Variable serialize_chapter : string -> section_dom -> string.
Variable precis_prompt commentary_prompt annotation_prompt addition_prompt
  illustration_prompt : string.

Lemma merge_confined c chapter_xml xml whitespace section v1 v2 v3 v4 v5 :
  confined (own c) 0 1
    (merge py_str image_backend resize_and_quantize fromstring serialize_chapter
       c chapter_xml xml whitespace section v1 v2 v3 v4 v5).
Proof.
  unfold merge.
  apply confined_lift; intros merged. apply confined_lift; intros section1.
  apply confined_lift; intros section2. apply confined_lift; intros description.
  apply (confined_bind (own c) _ _ 0 1 0 0).
  { apply confined_cached, confined_get_image. }
  intros data. apply (confined_bind (own c) _ _ 0 0 0 0).
  { apply confined_cached, confined_compress_image. }
  intros compressed. apply (confined_bind (own c) _ _ 0 0 0 0).
  { apply confined_write_bytes. by right. }
  intros _. apply confined_lift; intros section3. apply confined_lift; intros section4.
  apply confined_lift; intros section5. apply (confined_bind (own c) _ _ 0 0 0 0).
  { apply confined_write_file. by left. }
  intros _. apply confined_mret.
Qed.

Lemma process_chapter_budget sched job :
  confined (own (job_chapter_path job)) 5 1
    (process_chapter py_str partial_json_loads chat_backend image_backend
       resize_and_quantize find_section section_text fromstring serialize_chapter
       precis_prompt commentary_prompt annotation_prompt addition_prompt
       illustration_prompt sched job).
Proof.
  unfold process_chapter.
  apply (confined_bind _ _ _ 0 0 5 1); [apply confined_read_file|]. intros chapter_xml.
  apply confined_lift. intros [section|].
  2:{ apply (confined_weaken _ _ 0 0); [lia|lia|apply confined_mret]. }
  apply confined_lift; intros xml. apply confined_lift; intros whitespace.
  apply (confined_bind _ _ _ 5 0 0 1).
  { apply (confined_run_threaded _ 1 0 (cached_completion partial_json_loads chat_backend)).
    intros j _. apply confined_cached, confined_get_completion_text. }
  intros results.
  destruct results as [|v1 [|v2 [|v3 [|v4 [|v5 [|]]]]]];
    try (apply (confined_weaken _ _ 0 0); [lia|lia|apply confined_mraise]).
  apply merge_confined.
Qed.

(** X12. A chapter run stays within its chapter.  Whether it returns or
    raises, and under any schedule, process_chapter sends at most five
    requests to the chat service and at most one to the image service.  Of
    the files of the book and of the work directory it writes only the
    file of its chapter and the illustration of that chapter: every other
    one is left as it was.  The one file it writes besides is the shelf of
    the cache, and there it only fills in: an entry that holds a non-empty
    value is neither changed nor removed. *)
Theorem process_chapter_confined sched job w :
  let w' :=
    snd (process_chapter py_str partial_json_loads chat_backend image_backend
           resize_and_quantize find_section section_text fromstring serialize_chapter
           precis_prompt commentary_prompt annotation_prompt addition_prompt
           illustration_prompt sched job w) in
  chat_calls w' <= chat_calls w + 5
  /\ image_calls w' <= image_calls w + 1
  /\ (forall path,
        path <> chapter_file (job_chapter_path job) ->
        path <> illustration_file (job_chapter_path job) ->
        files w' !! path = files w !! path)
  /\ (forall key v,
        cache_db w !! key = Some v -> truthy v = true -> cache_db w' !! key = Some v).
Proof.
  cbv zeta. destruct (process_chapter_budget sched job w) as (H1 & H2 & H3 & H4).
  split; [exact H1|]. split; [exact H2|]. split; [|exact H4].
  intros path Hchapter Hillustration. apply H3. unfold own. tauto.
Qed.

(** X13. A book run stays within its chapters.  Whether it returns or
    raises, under any schedule of the pool and of the pools of the chapters,
    the run over the chapters of a book sends at most five requests per
    chapter to the chat service and at most one per chapter to the image
    service.  Of the files of the book and of the work directory it writes
    only the files and the illustrations of the chapters it was given.  The
    one file it writes besides is the shelf of the cache, and there it only
    fills in: an entry that holds a non-empty value is neither changed nor
    removed. *)
Theorem book_run_confined sched pool title author chapter_paths w :
  let w' :=
    snd (process_epub_chapters py_str partial_json_loads chat_backend image_backend
           resize_and_quantize find_section section_text fromstring serialize_chapter
           precis_prompt commentary_prompt annotation_prompt addition_prompt
           illustration_prompt sched pool title author chapter_paths w) in
  chat_calls w' <= chat_calls w + 5 * length chapter_paths
  /\ image_calls w' <= image_calls w + length chapter_paths
  /\ (forall path,
        Forall (fun c => path <> chapter_file c /\ path <> illustration_file c)
               chapter_paths ->
        files w' !! path = files w !! path)
  /\ (forall key v,
        cache_db w !! key = Some v -> truthy v = true -> cache_db w' !! key = Some v).
Proof.
  cbv zeta. unfold process_epub_chapters.
  set (jobs := chapter_jobs title author chapter_paths).
  set (allowed := fun path => exists c, In c chapter_paths /\ own c path).
  assert (length jobs = length chapter_paths) as Hlength by apply length_map.
  destruct (confined_run_threaded allowed 5 1
              (fun j => process_chapter py_str partial_json_loads chat_backend
                          image_backend resize_and_quantize find_section section_text
                          fromstring serialize_chapter precis_prompt commentary_prompt
                          annotation_prompt addition_prompt illustration_prompt
                          (pool (job_chapter_path j)) j)
              sched jobs) with (w := w) as (H1 & H2 & H3 & H4).
  { intros j Hj. apply (confined_mono (own (job_chapter_path j)));
      [|apply process_chapter_budget].
    intros path Hown. exists (job_chapter_path j). split; [|exact Hown].
    apply in_map_iff in Hj as (c & <- & Hc). exact Hc. }
  rewrite Hlength in H1, H2.
  split; [exact H1|]. split; [lia|]. split; [|exact H4].
  intros path Hpath. apply H3.
  intros (c & Hc & Hown). rewrite Forall_forall in Hpath.
  destruct (Hpath c (proj2 (list_elem_of_In _ _) Hc)) as [Hchapter Hillustration].
  unfold own in Hown. tauto.
Qed.

End ChapterConfined.

(** ** Every choice of a reply is decoded *)

Lemma mapM_res_ok {A B} (f : A -> pyres B) l : forall outs,
  mapM_res f l = Ok outs -> Forall2 (fun a b => f a = Ok b) l outs.
Proof.
  induction l as [|a rest IH]; intros outs H; cbn [mapM_res] in H.
  - injection H as <-. constructor.
  - destruct (f a) as [b|e] eqn:Ha; cbn [rbind] in H; [|discriminate].
    destruct (mapM_res f rest) as [bs|e] eqn:Hrest; cbn [rbind] in H; [|discriminate].
    injection H as <-. constructor; [exact Ha|]. by apply IH.
Qed.

(** X14. A call with a tool decodes every choice of the reply.  When
    get_completion_text returns for a request with a tool, the service was
    asked once and the arguments of every choice of its reply were decoded,
    those of the choices that are not returned included: with a sample count
    the result is the list of the outputs, one per choice in the order of
    the reply, without one it is the first output, and the others were
    decoded all the same, so that one undecodable choice fails the call. *)
Theorem completion_decodes_every_choice partial_json_loads chat_backend kw t w v w' :
  req_tool kw = Some t ->
  get_completion_text partial_json_loads chat_backend kw w = (Ok v, w') ->
  exists choices outs,
    chat_backend (chat_calls w) kw = Ok choices
    /\ Forall2 (fun c out => tool_output partial_json_loads c = Ok out) choices outs
    /\ match n kw with
       | Some _ => v = PList outs
       | None => head outs = Some v
       end
    /\ chat_calls w' = S (chat_calls w).
Proof.
  intros Htool H. unfold get_completion_text in H. injection H as H <-.
  destruct (chat_backend (chat_calls w) kw) as [choices|e]; cbn [rbind] in H; [|discriminate].
  unfold completion_output in H. rewrite Htool in H.
  destruct (mapM_res (tool_output partial_json_loads) choices) as [outs|e] eqn:Houts;
    cbn [rbind] in H; [|discriminate].
  exists choices, outs. split; [reflexivity|]. split; [by apply mapM_res_ok|].
  split; [|reflexivity].
  destruct (n kw); [by injection H as <-|].
  destruct outs as [|out rest]; [discriminate|]. by injection H as <-.
Qed.

(** A reply of two choices to a request without a sample count: the first
    output is returned, the second was decoded with it. *)
Lemma completion_decodes_every_choice_witness :
  exists choices outs,
    (fun _ _ => Ok [ {| content := PNone; tool_calls := Some ["ONE"] |};
                     {| content := PNone; tool_calls := Some ["TWO"] |} ])
      (chat_calls one_entry_world)
      {| prompt := "Add."; req_tool := Some addition_tool; temperature := None; n := None |}
    = Ok choices
    /\ Forall2 (fun c out =>
                  tool_output (table_loads [("ONE", PDict [("new_sentence", PStr "a")]);
                                            ("TWO", PDict [("new_sentence", PStr "b")])]) c
                  = Ok out) choices outs
    /\ head outs = Some (PDict [("new_sentence", PStr "a")])
    /\ chat_calls
         {| cache_db := cache_db one_entry_world; files := files one_entry_world;
            chat_calls := S (chat_calls one_entry_world);
            image_calls := image_calls one_entry_world |}
       = S (chat_calls one_entry_world).
Proof.
  apply (completion_decodes_every_choice
           (table_loads [("ONE", PDict [("new_sentence", PStr "a")]);
                         ("TWO", PDict [("new_sentence", PStr "b")])])
           (fun _ _ => Ok [ {| content := PNone; tool_calls := Some ["ONE"] |};
                            {| content := PNone; tool_calls := Some ["TWO"] |} ])
           {| prompt := "Add."; req_tool := Some addition_tool; temperature := None;
              n := None |}
           addition_tool one_entry_world (PDict [("new_sentence", PStr "a")])).
  - reflexivity.
  - vm_compute. reflexivity.
Defined.

(** ** The order of the manifest *)

Lemma sans_tail_add_tail e more : sans_tail (add_tail e more) = sans_tail e.
Proof. by destruct e. Qed.

Lemma sans_tail_add_tail_last forest more :
  map sans_tail (add_tail_last forest more) = map sans_tail forest.
Proof.
  induction forest as [|e rest IH]; [reflexivity|].
  destruct rest as [|e' rest].
  - cbn [add_tail_last map]. by rewrite sans_tail_add_tail.
  - change (add_tail_last (e :: e' :: rest) more) with (e :: add_tail_last (e' :: rest) more).
    cbn [map] in *. by rewrite IH.
Qed.

Lemma sans_tail_set_tail_last forest text :
  map sans_tail (set_tail_last forest text) = map sans_tail forest.
Proof.
  induction forest as [|e rest IH]; [reflexivity|].
  destruct rest as [|e' rest].
  - by destruct e.
  - destruct e as [tag attrib x children tail].
    change (set_tail_last (Element tag attrib x children tail :: e' :: rest) text)
      with (Element tag attrib x children tail :: set_tail_last (e' :: rest) text).
    cbn [map] in *. by rewrite IH.
Qed.

Lemma pq_append_children fromstring value section section' :
  pq_append fromstring value section = Ok section' ->
  exists parsed,
    fromstring value = Ok parsed
    /\ map sans_tail (sec_children section')
       = map sans_tail (sec_children section) ++ map sans_tail (snd parsed).
Proof.
  unfold pq_append. intros H.
  destruct (fromstring value) as [parsed|e]; cbn [rbind] in H; [|discriminate].
  exists parsed. split; [reflexivity|]. injection H as <-.
  destruct (sec_children section) as [|c cs]; [reflexivity|].
  change (map sans_tail (add_tail_last (c :: cs) (default EmptyString (fst parsed)) ++ snd parsed)
          = map sans_tail (c :: cs) ++ map sans_tail (snd parsed)).
  by rewrite map_app, sans_tail_add_tail_last.
Qed.

Lemma pq_prepend_children fromstring value section section' :
  pq_prepend fromstring value section = Ok section' ->
  exists parsed,
    fromstring value = Ok parsed
    /\ map sans_tail (sec_children section')
       = map sans_tail (snd parsed) ++ map sans_tail (sec_children section).
Proof.
  unfold pq_prepend. intros H.
  destruct (fromstring value) as [parsed|e]; cbn [rbind] in H; [|discriminate].
  exists parsed. split; [reflexivity|]. injection H as <-.
  destruct (snd parsed) as [|r root]; [reflexivity|].
  change (map sans_tail (set_tail_last (r :: root) (default EmptyString (sec_text section))
                         ++ sec_children section)
          = map sans_tail (r :: root) ++ map sans_tail (sec_children section)).
  by rewrite map_app, sans_tail_set_tail_last.
Qed.

Lemma append_manifests_children fromstring chapter_results : forall manifest manifest',
  append_manifests fromstring chapter_results manifest = Ok manifest' ->
  exists items,
    Forall2 (fun chapter parsed =>
               exists markup, py_getitem chapter "manifest" = Ok (PStr markup)
                              /\ fromstring markup = Ok parsed)
            chapter_results items
    /\ map sans_tail (sec_children manifest')
       = map sans_tail (sec_children manifest)
         ++ concat (map (fun parsed => map sans_tail (snd parsed)) items).
Proof.
  induction chapter_results as [|chapter rest IH]; intros manifest manifest' H;
    cbn [append_manifests] in H.
  - injection H as <-. exists []. split; [constructor|]. cbn [map concat]. by rewrite app_nil_r.
  - destruct (py_getitem chapter "manifest") as [item|e] eqn:Hitem; cbn [rbind] in H;
      [|discriminate].
    destruct item as [| | |markup| | |]; cbn [py_markup rbind] in H; try discriminate.
    destruct (pq_append fromstring markup manifest) as [manifest1|e] eqn:Happend;
      cbn [rbind] in H; [|discriminate].
    destruct (pq_append_children _ _ _ _ Happend) as (parsed & Hparsed & Hchildren).
    destruct (IH _ _ H) as (items & Hitems & Hrest).
    exists (parsed :: items). split.
    + constructor; [|exact Hitems]. by exists markup.
    + rewrite Hrest, Hchildren. cbn [map concat]. by rewrite app_assoc.
Qed.

(** X15. The registration keeps the manifest and adds to it in order.  When
    the registration returns, the package document was read, and the one
    written back has as its manifest: the item of the publisher note, then
    every entry the manifest had, in their order and unchanged but for the
    text that follows them, then the illustration item of every chapter
    result, in the order of the chapters.  Nothing else of the world
    changes. *)
Theorem register_chapters_order fromstring parse_opf serialize_opf work_dir
    chapter_results w w' :
  register_chapters fromstring parse_opf serialize_opf work_dir chapter_results w
  = (Ok tt, w') ->
  exists source pq manifest spine front items,
    files w !! (work_dir +:+ "/epub/content.opf") = Some source
    /\ parse_opf source = Ok pq
    /\ w' = {| cache_db := cache_db w;
               files := <[work_dir +:+ "/epub/content.opf" :=
                            registered serialize_opf source manifest spine]> (files w);
               chat_calls := chat_calls w; image_calls := image_calls w |}
    /\ fromstring publisher_item = Ok front
    /\ Forall2 (fun chapter parsed =>
                  exists markup, py_getitem chapter "manifest" = Ok (PStr markup)
                                 /\ fromstring markup = Ok parsed)
               chapter_results items
    /\ map sans_tail (sec_children manifest)
       = map sans_tail (snd front)
         ++ map sans_tail (sec_children (opf_manifest pq))
         ++ concat (map (fun parsed => map sans_tail (snd parsed)) items).
Proof.
  intros H. unfold register_chapters, mbind, read_file, lift, write_file in H.
  destruct (files w !! (work_dir +:+ "/epub/content.opf")) as [source|] eqn:Hsource;
    [|discriminate].
  destruct (parse_opf source) as [pq|e] eqn:Hpq; [|discriminate].
  destruct (pq_prepend fromstring publisher_item (opf_manifest pq)) as [manifest0|e]
    eqn:Hprepend; [|discriminate].
  destruct (append_manifests fromstring chapter_results manifest0) as [manifest|e]
    eqn:Hmanifest; [|discriminate].
  destruct (pq_prepend fromstring publisher_itemref (opf_spine pq)) as [spine|e];
    [|discriminate].
  injection H as <-.
  destruct (pq_prepend_children _ _ _ _ Hprepend) as (front & Hfront & Hchildren0).
  destruct (append_manifests_children _ _ _ _ Hmanifest) as (items & Hitems & Hchildren).
  exists source, pq, manifest, spine, front, items.
  split; [reflexivity|]. split; [exact Hpq|]. split; [reflexivity|].
  split; [exact Hfront|]. split; [exact Hitems|].
  rewrite Hchildren, Hchildren0. by rewrite app_assoc.
Qed.

(** A manifest with one entry and two chapter results: the publisher note
    comes first, the entry stays, the two illustrations follow in order. *)
Lemma register_chapters_order_witness :
  register_chapters demo_fromstring one_item_opf demo_serialize_opf "work_dir"
    [PDict [("manifest", PStr "one")]; PDict [("manifest", PStr "two")]] work_dir_world
  = (Ok tt,
     snd (register_chapters demo_fromstring one_item_opf demo_serialize_opf "work_dir"
            [PDict [("manifest", PStr "one")]; PDict [("manifest", PStr "two")]]
            work_dir_world))
  /\ exists source pq manifest spine front items,
       files work_dir_world !! ("work_dir" +:+ "/epub/content.opf") = Some source
       /\ one_item_opf source = Ok pq
       /\ snd (register_chapters demo_fromstring one_item_opf demo_serialize_opf "work_dir"
                 [PDict [("manifest", PStr "one")]; PDict [("manifest", PStr "two")]]
                 work_dir_world)
          = {| cache_db := cache_db work_dir_world;
               files := <["work_dir" +:+ "/epub/content.opf" :=
                            registered demo_serialize_opf source manifest spine]>
                          (files work_dir_world);
               chat_calls := chat_calls work_dir_world;
               image_calls := image_calls work_dir_world |}
       /\ demo_fromstring publisher_item = Ok front
       /\ Forall2 (fun chapter parsed =>
                     exists markup, py_getitem chapter "manifest" = Ok (PStr markup)
                                    /\ demo_fromstring markup = Ok parsed)
                  [PDict [("manifest", PStr "one")]; PDict [("manifest", PStr "two")]] items
       /\ map sans_tail (sec_children manifest)
          = map sans_tail (snd front)
            ++ map sans_tail (sec_children (opf_manifest pq))
            ++ concat (map (fun parsed => map sans_tail (snd parsed)) items).
Proof.
  assert (register_chapters demo_fromstring one_item_opf demo_serialize_opf "work_dir"
            [PDict [("manifest", PStr "one")]; PDict [("manifest", PStr "two")]]
            work_dir_world
          = (Ok tt,
             snd (register_chapters demo_fromstring one_item_opf demo_serialize_opf "work_dir"
                    [PDict [("manifest", PStr "one")]; PDict [("manifest", PStr "two")]]
                    work_dir_world))) as Hrun by (vm_compute; reflexivity).
  split; [exact Hrun|].
  exact (register_chapters_order demo_fromstring one_item_opf demo_serialize_opf "work_dir"
           [PDict [("manifest", PStr "one")]; PDict [("manifest", PStr "two")]]
           work_dir_world _ Hrun).
Defined.
